(** * Voucher allocation engine: a shallow embedding of
      [voucher_system.py] (SQLite) and [voucher_postgres.py] (PostgreSQL).

    Tables are lists of rows in storage order, a SQL statement is a pure
    function of the tables, the database connection of an order is the
    working copy of the tables seen by its open transaction, and the
    Python [results] dictionary is a finite map. *)

From Stdlib Require Import ZArith String List Lia.
From stdpp Require Import base decidable option list strings gmap fin_maps pretty.

(** ** Time

    The SQLite variant renders its timestamps with
    ['%Y-%m-%d %H:%M:%S'] and compares them as text; that rendering is
    monotone, so timestamps are kept as a number of seconds. *)

Definition days (n : Z) : Z := (n * 86400)%Z.

(** ** Tables *)

(** [raw_pool (phone_number, provider, url_source, imported_at, file_source)] *)
Record pool_row := PoolRow {
  phone_number : string;
  provider : string;
  url_source : string;
  imported_at : Z;
  file_source : string
}.

(** [sales_history (phone_number, customer_name, sold_at)] *)
Record sale_row := SaleRow {
  sold_phone : string;
  sold_to : string;
  sold_at : Z
}.

Record database := Database {
  raw_pool : list pool_row;
  sales_history : list sale_row
}.

(** One entry of [requirements]: [{'provider': p, 'qty': n}]. *)
Record requirement := Req {
  req_provider : string;
  req_qty : Z
}.

#[global] Instance sale_row_eq_dec : EqDecision sale_row.
Proof. solve_decision. Defined.

#[global] Instance pool_row_eq_dec : EqDecision pool_row.
Proof. solve_decision. Defined.

(** ** The query engine

    Neither query has an [ORDER BY]: the order in which the rows come
    out (and hence which rows survive [LIMIT]) is the engine's choice.
    An engine is any function that emits the rows it is given in some
    order. *)

Class engine := Engine {
  emit : list string → list string;
  emit_perm : ∀ l, emit l ≡ₚ l
}.

(** The engine that emits rows in storage order. *)
Definition storage_order : engine := Engine (λ l, l) (λ l, reflexivity l).

(** The engine that emits rows in reverse storage order. *)
Definition reverse_order : engine := Engine reverse reverse_Permutation.

(** ** The anti-join *)

(** [SELECT s.phone_number FROM sales_history s WHERE s.sold_at >= cutoff] *)
Definition blacklist (cutoff : Z) (sales : list sale_row) : list string :=
  sold_phone <$> filter (λ s, (cutoff ≤ sold_at s)%Z) sales.

(** The [WHERE] clause shared by both variants: provider, freshness and
    absence from the blacklist ([NOT IN (...)] in SQLite,
    [LEFT JOIN ... WHERE b.phone_number IS NULL] in PostgreSQL). *)
Definition selectable (wanted : string) (fresh cutoff : Z) (d : database)
    (r : pool_row) : Prop :=
  provider r = wanted ∧ (fresh ≤ imported_at r)%Z ∧
  phone_number r ∉ blacklist cutoff (sales_history d).

#[global] Instance selectable_dec wanted fresh cutoff d r :
  Decision (selectable wanted fresh cutoff d r).
Proof. unfold selectable. apply _. Defined.

(** One output row per selectable pool row. *)
Definition anti_join (wanted : string) (fresh cutoff : Z) (d : database)
    : list string :=
  phone_number <$> filter (selectable wanted fresh cutoff d) (raw_pool d).

(** ** Quantities on the wire

    Both databases take the quantity as a signed 64-bit integer: the
    [sqlite3] module raises [OverflowError] when asked to bind a Python
    integer outside that range, and PostgreSQL raises an error when the
    [LIMIT] does not fit a [bigint]. *)

Definition int64_min : Z := -9223372036854775808.

Definition int64_max : Z := 9223372036854775807.

Definition fits_int64 (n : Z) : Prop := (int64_min ≤ n ≤ int64_max)%Z.

#[global] Instance fits_int64_dec n : Decision (fits_int64 n).
Proof. unfold fits_int64. apply _. Defined.

(** ** SQLite: the query of [process_order]

    [GROUP BY r.phone_number] keeps one row per phone number; SQLite
    treats a negative [LIMIT] as no limit. [None] is the exception
    raised for a quantity that cannot be bound. *)

Definition sqlite_candidates `{engine} (wanted : string) (fresh cutoff : Z)
    (d : database) : list string :=
  emit (remove_dups (anti_join wanted fresh cutoff d)).

Definition sqlite_limit (qty : Z) (rows : list string) : list string :=
  if decide (qty < 0)%Z then rows else take (Z.to_nat qty) rows.

Definition sqlite_query `{engine} (fresh cutoff : Z) (d : database)
    (r : requirement) : option (list string) :=
  if decide (fits_int64 (req_qty r))
  then Some (sqlite_limit (req_qty r)
               (sqlite_candidates (req_provider r) fresh cutoff d))
  else None.

(** ** PostgreSQL: the query of [process_order_postgres]

    The [Candidates] CTE has no [DISTINCT]; the left join emits one row
    per candidate row that has no match in [Blacklist]. PostgreSQL
    rejects with an error a [LIMIT] that is negative or does not fit a
    [bigint]. [NOW()] is the start time of the transaction. *)

Definition pg_candidates `{engine} (wanted : string) (server_now : Z)
    (d : database) : list string :=
  emit (anti_join wanted (server_now - days 3) (server_now - days 30) d).

Definition pg_query `{engine} (server_now : Z) (d : database)
    (r : requirement) : option (list string) :=
  if decide (0 ≤ req_qty r ≤ int64_max)%Z
  then Some (take (Z.to_nat (req_qty r))
               (pg_candidates (req_provider r) server_now d))
  else None.

(** ** The order loop *)

(** What the loop prints after each query: the PostgreSQL warning
    shows the count found and the quantity asked for, the SQLite
    warning the count found only, a success line the count found. *)
Inductive event :=
  | Shortage (found : nat) (qty : Z)
  | Warning (found : nat)
  | Success (found : nat).

(** The storage calls an order makes; any of them may raise. *)
Inductive db_call :=
  | ExecSelect (i : nat)
  | ExecInsert (i : nat)
  | Commit.

(** The local state of one order: the tables as its transaction sees
    them, the number of clock readings taken so far, the [results]
    dictionary and the lines printed. *)
Record run_state := RunState {
  conn_db : database;
  ticks : nat;
  results : gmap string (list string);
  printed : list event
}.

Inductive exit :=
  | Done (st : run_state)
  | Exn (st : run_state).

(** [[(num, customer_name, now()) for num in found_numbers]]: the clock
    is read once per number. *)
Definition sales_records (clk : nat → Z) (k : nat) (customer_name : string)
    (found_numbers : list string) : list sale_row :=
  imap (λ j num, SaleRow num customer_name (clk (k + j))) found_numbers.

(** [if len(found_numbers) < qty: print(warning) else: print(success)],
    as [process_order] has it. *)
Definition sqlite_report (found_numbers : list string) (qty : Z) : event :=
  if decide (Z.of_nat (length found_numbers) < qty)%Z
  then Warning (length found_numbers)
  else Success (length found_numbers).

(** The same, as [process_order_postgres] has it. *)
Definition pg_report (found_numbers : list string) (qty : Z) : event :=
  if decide (Z.of_nat (length found_numbers) < qty)%Z
  then Shortage (length found_numbers) qty
  else Success (length found_numbers).

Section order_loop.
Context (query : database → requirement → option (list string)).
Context (report : list string → Z → event).
Context (clk : nat → Z) (fails : db_call → bool).
Context (customer_name : string).

(** [INSERT INTO sales_history ...] followed by
    [results[provider] = found_numbers]. *)
Definition record_sale (wanted : string) (found_numbers : list string)
    (st : run_state) : run_state :=
  {| conn_db :=
       {| raw_pool := raw_pool (conn_db st);
          sales_history :=
            sales_history (conn_db st) ++
            sales_records clk (ticks st) customer_name found_numbers |};
     ticks := ticks st + length found_numbers;
     results := <[wanted := found_numbers]> (results st);
     printed := printed st |}.

(** The line printed after the query. *)
Definition print (e : event) (st : run_state) : run_state :=
  {| conn_db := conn_db st; ticks := ticks st; results := results st;
     printed := printed st ++ [e] |}.

(** The body of [for req in requirements]. *)
Definition fulfil (i : nat) (r : requirement) (st : run_state) : exit :=
  if fails (ExecSelect i) then Exn st else
  match query (conn_db st) r with
  | None => Exn st
  | Some found_numbers =>
      let st := print (report found_numbers (req_qty r)) st in
      match found_numbers with
      | [] => Done st
      | _ :: _ =>
          if fails (ExecInsert i) then Exn st
          else Done (record_sale (req_provider r) found_numbers st)
      end
  end.

Fixpoint order_loop (i : nat) (requirements : list requirement)
    (st : run_state) : exit :=
  match requirements with
  | [] => Done st
  | r :: rest =>
      match fulfil i r st with
      | Done st' => order_loop (S i) rest st'
      | Exn st' => Exn st'
      end
  end.
End order_loop.

(** What the caller of an order gets. *)
Inductive outcome :=
  | Returned (result : gmap string (list string))
  | Raised.

Record order_end := OrderEnd {
  answer : outcome;
  stored : database;
  stdout : list event
}.

(** The 30-day window for deduplication, from the first reading of
    the clock. *)
Definition cutoff_date (clk : nat → Z) : Z := (clk 0%nat - days 30)%Z.

(** The 3-day freshness of the data, from the second reading. *)
Definition data_freshness_date (clk : nat → Z) : Z := (clk 1%nat - days 3)%Z.

(** [voucher_system.process_order]. The function has no [try]: an
    exception leaves it before [conn.commit()], and the connection is
    dropped with its transaction uncommitted. The clock is read for
    [cutoff_date], then for [data_freshness_date], then for each sale. *)
Definition process_order `{engine} (clk : nat → Z) (fails : db_call → bool)
    (d : database) (customer_name : string)
    (requirements : list requirement) : order_end :=
  match order_loop (sqlite_query (data_freshness_date clk) (cutoff_date clk))
          sqlite_report clk fails customer_name 0 requirements
          (RunState d 2 ∅ []) with
  | Done st =>
      if fails Commit then OrderEnd Raised d (printed st)
      else OrderEnd (Returned (results st)) (conn_db st) (printed st)
  | Exn st => OrderEnd Raised d (printed st)
  end.

(** [voucher_postgres.process_order_postgres]. Every exception inside
    the [try] is caught: the transaction is rolled back, and the
    function still ends in [return results]. *)
Definition process_order_postgres `{engine} (server_now : Z) (clk : nat → Z)
    (fails : db_call → bool) (d : database) (customer_name : string)
    (requirements : list requirement) : order_end :=
  match order_loop (pg_query server_now) pg_report
          clk fails customer_name 0 requirements (RunState d 0 ∅ []) with
  | Done st =>
      if fails Commit then OrderEnd (Returned (results st)) d (printed st)
      else OrderEnd (Returned (results st)) (conn_db st) (printed st)
  | Exn st => OrderEnd (Returned (results st)) d (printed st)
  end.

(** No storage call raises. *)
Definition reliable : db_call → bool := λ _, false.

(** ** Ingestion

    [ingest_file] and [ingest_file_postgres]: the provider is read off
    the prefix of the number, and every row of the file is appended to
    [raw_pool] without any check for numbers already present. *)

Definition detect_provider (phone : string) : string :=
  if String.prefix "0812" phone then "tsel"
  else if String.prefix "0857" phone then "isat"
  else if String.prefix "0819" phone then "xl"
  else "other".

(** One line of the input file: phone, url, timestamp. *)
Definition ingest_file (filename : string) (lines : list (string * string * Z))
    (d : database) : database :=
  {| raw_pool :=
       raw_pool d ++
       ((λ l, PoolRow l.1.1 (detect_provider l.1.1) l.1.2 l.2 filename)
          <$> lines);
     sales_history := sales_history d |}.

(** ** Concurrent orders

    Each order runs on a connection of its own. A statement of an open
    transaction sees the committed rows and the rows the transaction
    itself has written; its own rows reach the committed table at
    [conn.commit()]. The statements of two orders may interleave in any
    way: neither variant takes a lock, and [sales_history] has no
    uniqueness constraint. *)

Inductive stage :=
  | Selecting
  | Inserting (found_numbers : list string)
  | Ended.

Record txn := Txn {
  txn_customer : string;
  todo : list requirement;
  at_stage : stage;
  pending : list sale_row;
  txn_ticks : nat;
  txn_results : gmap string (list string)
}.

Definition begin (customer_name : string) (requirements : list requirement)
    (first_tick : nat) : txn :=
  Txn customer_name requirements Selecting [] first_tick ∅.

(** The tables as the statements of [t] see them. *)
Definition view (committed : database) (t : txn) : database :=
  {| raw_pool := raw_pool committed;
     sales_history := sales_history committed ++ pending t |}.

(** Two orders and the committed tables. *)
Record world := World {
  committed : database;
  first : txn;
  second : txn
}.

Section interleaving.
Context (query : database → requirement → option (list string)).
Context (clk : nat → Z).

(** The next statement of [t]: the query of the current requirement,
    the insert that follows it, or the final commit. *)
Definition txn_step (shared : database) (t : txn) : database * txn :=
  match at_stage t, todo t with
  | Selecting, r :: rest =>
      match query (view shared t) r with
      | None =>
          (shared,
           Txn (txn_customer t) [] Ended [] (txn_ticks t) (txn_results t))
      | Some [] =>
          (shared,
           Txn (txn_customer t) rest Selecting (pending t) (txn_ticks t)
             (txn_results t))
      | Some found_numbers =>
          (shared,
           Txn (txn_customer t) (r :: rest) (Inserting found_numbers)
             (pending t) (txn_ticks t) (txn_results t))
      end
  | Inserting found_numbers, r :: rest =>
      (shared,
       Txn (txn_customer t) rest Selecting
         (pending t ++
          sales_records clk (txn_ticks t) (txn_customer t) found_numbers)
         (txn_ticks t + length found_numbers)
         (<[req_provider r := found_numbers]> (txn_results t)))
  | Selecting, [] =>
      (view shared t,
       Txn (txn_customer t) [] Ended [] (txn_ticks t) (txn_results t))
  | _, _ => (shared, t)
  end.

(** A schedule names, statement after statement, the order that
    moves: [true] for the first, [false] for the second. *)
Definition world_step (w : world) (who : bool) : world :=
  if who then
    let '(d, t) := txn_step (committed w) (first w) in World d t (second w)
  else
    let '(d, t) := txn_step (committed w) (second w) in World d (first w) t.

Definition run_schedule (schedule : list bool) (w : world) : world :=
  foldl world_step w schedule.
End interleaving.

(** ** Partition manager

    Dates are proleptic Gregorian ordinals, as in [datetime.date]:
    day 1 is 0001-01-01 and [date.max] is 9999-12-31. *)

Definition max_ordinal : Z := 3652059.

(** [date + timedelta(days=n)]; out of range is an [OverflowError]. *)
Definition add_days (d n : Z) : option Z :=
  if decide (1 ≤ d + n ≤ max_ordinal)%Z then Some (d + n)%Z else None.

Definition days_before_month (month : Z) : Z :=
  nth (Z.to_nat month)
    [0; 0; 31; 59; 90; 120; 151; 181; 212; 243; 273; 304; 334]%Z 0%Z.

Definition days_in_month (month : Z) : Z :=
  nth (Z.to_nat month)
    [0; 31; 28; 31; 30; 31; 30; 31; 31; 30; 31; 30; 31]%Z 0%Z.

(** Year, month and day of an ordinal (the arithmetic of [datetime]). *)
Definition ord2ymd (ordinal : Z) : Z * Z * Z :=
  let n := (ordinal - 1)%Z in
  let n400 := (n / 146097)%Z in
  let n := (n mod 146097)%Z in
  let n100 := (n / 36524)%Z in
  let n := (n mod 36524)%Z in
  let n4 := (n / 1461)%Z in
  let n := (n mod 1461)%Z in
  let n1 := (n / 365)%Z in
  let n := (n mod 365)%Z in
  let year := (n400 * 400 + 1 + n100 * 100 + n4 * 4 + n1)%Z in
  if bool_decide (n1 = 4 ∨ n100 = 4)%Z then ((year - 1)%Z, 12%Z, 31%Z)
  else
    let leapyear := bool_decide (n1 = 3 ∧ (n4 ≠ 24 ∨ n100 = 3))%Z in
    let month := Z.shiftr (n + 50) 5 in
    let preceding :=
      (days_before_month month +
       (if bool_decide (2 < month)%Z && leapyear then 1 else 0))%Z in
    if bool_decide (n < preceding)%Z then
      let month := (month - 1)%Z in
      let preceding :=
        (preceding -
         (days_in_month month +
          (if bool_decide (month = 2)%Z && leapyear then 1 else 0)))%Z in
      (year, month, (n - preceding + 1)%Z)
    else (year, month, (n - preceding + 1)%Z).

Definition digit (n : Z) : string :=
  String (Ascii.ascii_of_nat (48 + Z.to_nat (n mod 10))) "".

Definition pad2 (n : Z) : string := digit (n / 10) +:+ digit n.

Definition pad4 (n : Z) : string := pad2 (n / 100) +:+ pad2 n.

(** [raw_pool_yYYYYmMMdDD] *)
Definition part_name (day_start : Z) : string :=
  let '(y, m, d) := ord2ymd day_start in
  "raw_pool_y" +:+ pad4 y +:+ "m" +:+ pad2 m +:+ "d" +:+ pad2 d.

(** A relation of the catalog; a partition of [raw_pool] carries its
    bounds [FROM lo TO hi]. *)
Record relation := Relation {
  rel_name : string;
  rel_bounds : option (Z * Z)
}.

(** [SELECT to_regclass(name)] is not null. *)
Definition to_regclass (name : string) (catalog : list relation) : bool :=
  bool_decide (name ∈ rel_name <$> catalog).

Definition overlaps (lo hi : Z) (rel : relation) : Prop :=
  match rel_bounds rel with
  | Some (a, b) => (lo < b ∧ a < hi)%Z
  | None => False
  end.

#[global] Instance overlaps_dec lo hi rel : Decision (overlaps lo hi rel).
Proof. unfold overlaps. destruct (rel_bounds rel) as [[a b]|]; apply _. Defined.

(** [CREATE TABLE name PARTITION OF raw_pool FOR VALUES FROM lo TO hi]:
    an error when the parent is missing, the name is taken or the
    bounds overlap those of an existing partition. *)
Definition create_partition (name : string) (lo hi : Z)
    (catalog : list relation) : option (list relation) :=
  if decide ("raw_pool" ∈ (rel_name <$> catalog) ∧
             (name ∉ rel_name <$> catalog) ∧
             Forall (λ rel, ¬ overlaps lo hi rel) catalog)
  then Some (catalog ++ [Relation name (Some (lo, hi))])
  else None.

(** One round of [for i in range(4)]; [None] is an exception. The
    second component lists the partitions created so far. *)
Definition ensure_day (base_date : Z) (i : Z)
    (st : list relation * list string) : option (list relation * list string) :=
  day_start ← add_days base_date i;
  day_end ← add_days day_start 1;
  if to_regclass (part_name day_start) st.1 then Some st
  else
    catalog ← create_partition (part_name day_start) day_start day_end st.1;
    Some (catalog, st.2 ++ [part_name day_start]).

Fixpoint ensure_days (base_date : Z) (range : list Z)
    (st : list relation * list string) : option (list relation * list string) :=
  match range with
  | [] => Some st
  | i :: range =>
      st' ← ensure_day base_date i st; ensure_days base_date range st'
  end.

Record partitions_end := PartitionsEnd {
  catalog_after : list relation;
  created : list string
}.

(** [init_db_partitions], with [date.today()] and the catalog as
    arguments: all four days commit together, and an exception rolls
    every creation of the call back. *)
Definition init_db_partitions (today : Z) (catalog : list relation)
    : partitions_end :=
  match ensure_days today [0; 1; 2; 3]%Z (catalog, []) with
  | Some (catalog', names) => PartitionsEnd catalog' names
  | None => PartitionsEnd catalog []
  end.

(** ** The words of the specification *)

(** [x] has a pool record of provider [wanted] ingested at or after
    [since]. *)
Definition fresh_in_pool (x wanted : string) (since : Z) (d : database) : Prop :=
  ∃ r, r ∈ raw_pool d ∧ phone_number r = x ∧ provider r = wanted ∧
       (since ≤ imported_at r)%Z.

(** [x] has a ledger record at or after [cutoff]. *)
Definition sold_since (x : string) (cutoff : Z) (d : database) : Prop :=
  ∃ s, s ∈ sales_history d ∧ sold_phone s = x ∧ (cutoff ≤ sold_at s)%Z.

Definition eligible (x wanted : string) (fresh cutoff : Z) (d : database)
    : Prop :=
  fresh_in_pool x wanted fresh d ∧ ¬ sold_since x cutoff d.

(** ** The state a round of the loop leaves

    [settle r found st] is the state after the round for [r] when its
    query returned [found] and nothing raised. *)

Definition settle (report : list string → Z → event) (clk : nat → Z)
    (customer_name : string) (r : requirement)
    (found_numbers : list string) (st : run_state) : run_state :=
  match found_numbers with
  | [] => print (report found_numbers (req_qty r)) st
  | _ :: _ =>
      record_sale clk customer_name (req_provider r) found_numbers
        (print (report found_numbers (req_qty r)) st)
  end.

(** ** Sample data *)

(** 2025-12-01 12:00:00, in seconds. *)
Definition noon : Z := 1764590400.

Definition at_noon : nat → Z := λ _, noon.

Definition line (phone : string) (at_ : Z) : string * string * Z :=
  (phone, "game_a.com", at_).

Definition row (phone : string) (at_ : Z) : pool_row :=
  PoolRow phone (detect_provider phone) "game_a.com" at_ "data.csv".

Definition sample_pool : list pool_row :=
  [ row "081200000001" 1000000;
    row "081200000002" 1000000;
    row "085700000001" 1000000 ].

Definition empty_db : database := Database [] [].

(** One fresh [tsel] number. *)
Definition one_tsel : database :=
  ingest_file "a.csv" [line "081200000001" noon] empty_db.

(** Two fresh [tsel] numbers and one fresh [isat] number. *)
Definition small_pool : database :=
  ingest_file "a.csv"
    [line "081200000001" noon; line "081200000002" noon;
     line "085700000001" noon] empty_db.

(** The same [tsel] number in two files. *)
Definition twice_ingested : database :=
  ingest_file "b.csv" [line "081200000001" noon]
    (ingest_file "a.csv" [line "081200000001" noon] empty_db).



(** Storage on which the query of the second requirement raises. *)
Definition second_select_fails : db_call → bool :=
  λ c, match c with ExecSelect 1 => true | _ => false end.

(** Two orders for one [tsel] number each, started at the same time
    against a pool holding a single fresh [tsel] number. *)
Definition racing : world :=
  World one_tsel (begin "Anto" [Req "tsel" 1] 2) (begin "Budi" [Req "tsel" 1] 2).

(** Query, query, insert, commit, insert, commit: the two write
    transactions do not overlap, so that no statement has to wait for a
    lock of the other order. *)
Definition racy_schedule : list bool := [true; false; true; true; false; false].

(** The first order from its query to its commit, then the second. *)
Definition serial_schedule : list bool := [true; true; true; false; false].

(** A number ingested from one file and again, ahead of any other
    lines, from a second file. *)
Definition reingested (rest : list (string * string * Z)) : database :=
  ingest_file "b.csv" (line "081200000001" noon :: rest)
    (ingest_file "a.csv" [line "081200000001" noon] empty_db).

(** A catalog with the parent table and nothing else. *)
Definition bare_catalog : list relation := [Relation "raw_pool" None].

(** ** Further definitions *)

(** The state in which the loop was left, whether by its end or by an
    exception. *)
Definition exit_state (e : exit) : run_state :=
  match e with Done st => st | Exn st => st end.

(** The lines of the two variants that say the same: a success line
    with the same count, or the two forms of the warning with the same
    found count. *)
Definition same_line (e1 e2 : event) : Prop :=
  match e1, e2 with
  | Success n, Success m => n = m
  | Warning n, Shortage m _ => n = m
  | _, _ => False
  end.

(** ** [generate_dummy_file]

    One round of the loop that writes the file draws a provider, an
    eight-digit number and a url; the draws are the arguments here.
    The header line is the one [csv.DictReader] reads the keys from. *)

Record draw := Draw {
  drawn_provider : string;
  drawn_number : Z;
  drawn_url : string
}.

(** ["0812" if prov == 'tsel' else "0857" if prov == 'isat' else "0819"] *)
Definition prefix_for (prov : string) : string :=
  if decide (prov = "tsel") then "0812"
  else if decide (prov = "isat") then "0857"
  else "0819".

Definition generate_dummy_file (draws : list draw) (date_str : option Z)
    (now : Z) : list (string * string * Z) :=
  (λ w, (prefix_for (drawn_provider w) +:+ pretty (drawn_number w),
         drawn_url w, default now date_str)) <$> draws.

(** The provider under which a generated number is ingested. *)
Definition ingested_as (prov : string) : string :=
  if decide (prov = "tsel") then "tsel"
  else if decide (prov = "isat") then "isat"
  else "xl".

(** ** Partitions that do not overlap *)


(** The partition of one day. *)
Definition day_partition (day_start : Z) : relation :=
  Relation (part_name day_start) (Some (day_start, day_start + 1)%Z).

Example sample_run :
  process_order (H:=storage_order) (λ _, 1000000%Z) reliable
    (Database sample_pool []) "Anto" [Req "tsel" 5; Req "isat" 1]
  = OrderEnd
      (Returned (<["isat" := ["085700000001"]]>
                   (<["tsel" := ["081200000001"; "081200000002"]]> ∅)))
      (Database sample_pool
         [SaleRow "081200000001" "Anto" 1000000;
          SaleRow "081200000002" "Anto" 1000000;
          SaleRow "085700000001" "Anto" 1000000])
      [Warning 2; Success 1].
Proof. vm_compute. reflexivity. Qed.

(** Which of two fresh numbers an order for one is given depends on
    the engine. *)
Example engine_decides :
  answer (process_order (H:=storage_order) at_noon reliable small_pool "Anto"
            [Req "tsel" 1]) = Returned {[ "tsel" := ["081200000001"] ]} ∧
  answer (process_order (H:=reverse_order) at_noon reliable small_pool "Anto"
            [Req "tsel" 1]) = Returned {[ "tsel" := ["081200000002"] ]}.
Proof. split; by vm_compute. Qed.

Example part_name_sample : part_name 739586 = "raw_pool_y2025m12d01".
Proof. vm_compute. reflexivity. Qed.

Example ord2ymd_epoch : ord2ymd 719163 = (1970, 1, 1)%Z.
Proof. vm_compute. reflexivity. Qed.

Example ord2ymd_leap : ord2ymd 738945 = (2024, 2, 29)%Z.
Proof. vm_compute. reflexivity. Qed.

Example ord2ymd_max : ord2ymd max_ordinal = (9999, 12, 31)%Z.
Proof. vm_compute. reflexivity. Qed.

(** ** Facts about the queries *)

Section query_facts.
Context `{engine}.

Lemma elem_of_emit x l : x ∈ emit l ↔ x ∈ l.
Proof. by rewrite emit_perm. Qed.

Lemma NoDup_emit l : NoDup (emit l) ↔ NoDup l.
Proof. by rewrite emit_perm. Qed.

Lemma length_emit l : length (emit l) = length l.
Proof. by rewrite emit_perm. Qed.

Lemma elem_of_blacklist x cutoff d :
  x ∈ blacklist cutoff (sales_history d) ↔ sold_since x cutoff d.
Proof.
  unfold blacklist, sold_since. rewrite list_elem_of_fmap. split.
  - intros (s & -> & Hs). apply list_elem_of_filter in Hs as [Hat Hs]. eauto.
  - intros (s & Hs & <- & Hat). exists s. split; [done|].
    by apply list_elem_of_filter.
Qed.

Lemma elem_of_anti_join x wanted fresh cutoff d :
  x ∈ anti_join wanted fresh cutoff d ↔ eligible x wanted fresh cutoff d.
Proof.
  unfold anti_join, eligible, fresh_in_pool. rewrite list_elem_of_fmap.
  split.
  - intros (r & -> & Hr).
    apply list_elem_of_filter in Hr as [(Hp & Hf & Hb) Hr].
    rewrite elem_of_blacklist in Hb. eauto 10.
  - intros [(r & Hr & <- & Hp & Hf) Hb]. exists r. split; [done|].
    apply list_elem_of_filter. split; [|done].
    split_and!; [done..|]. by rewrite elem_of_blacklist.
Qed.

Lemma elem_of_sqlite_candidates x wanted fresh cutoff d :
  x ∈ sqlite_candidates wanted fresh cutoff d ↔
  eligible x wanted fresh cutoff d.
Proof.
  unfold sqlite_candidates.
  by rewrite elem_of_emit, elem_of_remove_dups, elem_of_anti_join.
Qed.

Lemma elem_of_pg_candidates x wanted server_now d :
  x ∈ pg_candidates wanted server_now d ↔
  eligible x wanted (server_now - days 3) (server_now - days 30) d.
Proof. unfold pg_candidates. by rewrite elem_of_emit, elem_of_anti_join. Qed.

Lemma NoDup_sqlite_candidates wanted fresh cutoff d :
  NoDup (sqlite_candidates wanted fresh cutoff d).
Proof. apply NoDup_emit, NoDup_remove_dups. Qed.

Lemma sqlite_limit_sublist qty rows : sqlite_limit qty rows `sublist_of` rows.
Proof. unfold sqlite_limit. case_decide; [done|apply sublist_take]. Qed.

Lemma sqlite_query_sublist fresh cutoff d r found :
  sqlite_query fresh cutoff d r = Some found →
  found `sublist_of` sqlite_candidates (req_provider r) fresh cutoff d.
Proof.
  unfold sqlite_query. case_decide; [|done]. intros [= <-].
  apply sqlite_limit_sublist.
Qed.

Lemma sqlite_query_fits fresh cutoff d r :
  fits_int64 (req_qty r) →
  sqlite_query fresh cutoff d r =
  Some (sqlite_limit (req_qty r)
          (sqlite_candidates (req_provider r) fresh cutoff d)).
Proof. intros Hfit. unfold sqlite_query. by rewrite decide_True. Qed.

Lemma sqlite_query_overflow fresh cutoff d r :
  ¬ fits_int64 (req_qty r) → sqlite_query fresh cutoff d r = None.
Proof. intros Hfit. unfold sqlite_query. by rewrite decide_False. Qed.

Lemma pg_query_fits server_now d r :
  (0 ≤ req_qty r ≤ int64_max)%Z →
  pg_query server_now d r =
  Some (take (Z.to_nat (req_qty r))
          (pg_candidates (req_provider r) server_now d)).
Proof. intros Hfit. unfold pg_query. by rewrite decide_True. Qed.

Lemma pg_query_rejected server_now d r :
  ¬ (0 ≤ req_qty r ≤ int64_max)%Z → pg_query server_now d r = None.
Proof. intros Hfit. unfold pg_query. by rewrite decide_False. Qed.

Lemma pg_query_sublist server_now d r found :
  pg_query server_now d r = Some found →
  found `sublist_of` pg_candidates (req_provider r) server_now d.
Proof.
  unfold pg_query. case_decide; [|done]. intros [= <-]. apply sublist_take.
Qed.

Lemma NoDup_sqlite_query fresh cutoff d r found :
  sqlite_query fresh cutoff d r = Some found → NoDup found.
Proof.
  intros Hq.
  eapply sublist_NoDup; eauto using sqlite_query_sublist, NoDup_sqlite_candidates.
Qed.
End query_facts.

(** ** Facts about the order loop *)

Section loop_facts.
Context (query : database → requirement → option (list string)).
Context (report : list string → Z → event).
Context (clk : nat → Z) (fails : db_call → bool) (customer_name : string).

Local Abbreviation fulfil := (fulfil query report clk fails customer_name).
Local Abbreviation order_loop :=
  (order_loop query report clk fails customer_name).
Local Abbreviation settle := (settle report clk customer_name).

Lemma settle_pool r found st :
  raw_pool (conn_db (settle r found st)) = raw_pool (conn_db st).
Proof. by destruct found. Qed.

Lemma settle_ledger r found st :
  sales_history (conn_db (settle r found st)) =
  sales_history (conn_db st) ++
  sales_records clk (ticks st) customer_name found.
Proof. destruct found; simpl; [by rewrite app_nil_r|done]. Qed.

Lemma settle_ticks r found st :
  ticks (settle r found st) = ticks st + length found.
Proof. destruct found; simpl; lia. Qed.

Lemma settle_results_nil r st : results (settle r [] st) = results st.
Proof. done. Qed.

Lemma settle_results_cons r found st :
  found ≠ [] →
  results (settle r found st) = <[req_provider r := found]> (results st).
Proof. by destruct found. Qed.

Lemma settle_printed r found st :
  printed (settle r found st) = printed st ++ [report found (req_qty r)].
Proof. by destruct found. Qed.

Lemma fulfil_Done i r st st' :
  fulfil i r st = Done st' ↔
  ∃ found, fails (ExecSelect i) = false ∧
           query (conn_db st) r = Some found ∧
           (found = [] ∨ fails (ExecInsert i) = false) ∧
           st' = settle r found st.
Proof.
  unfold fulfil. split.
  - destruct (fails (ExecSelect i)); [done|].
    destruct (query (conn_db st) r) as [[|x found]|]; [| |done].
    + intros [= <-]. exists []. eauto.
    + destruct (fails (ExecInsert i)) eqn:Hi; [done|].
      intros [= <-]. exists (x :: found). eauto.
  - intros (found & -> & -> & Hi & ->). destruct found as [|x found]; [done|].
    by destruct Hi as [?| ->].
Qed.

(** An exception leaves the results and the ledger of the connection
    as the last completed round left them. *)
Lemma fulfil_Exn i r st st' :
  fulfil i r st = Exn st' →
  conn_db st' = conn_db st ∧ results st' = results st.
Proof.
  unfold fulfil. destruct (fails (ExecSelect i)); [by intros [= <-]|].
  destruct (query (conn_db st) r) as [[|x found]|]; [done| |by intros [= <-]].
  destruct (fails (ExecInsert i)); [|done]. by intros [= <-].
Qed.

Lemma order_loop_app i pre post st :
  order_loop i (pre ++ post) st =
  match order_loop i pre st with
  | Done st' => order_loop (i + length pre) post st'
  | Exn st' => Exn st'
  end.
Proof.
  revert i st. induction pre as [|r pre IH]; intros i st; simpl.
  - by rewrite Nat.add_0_r.
  - destruct (fulfil i r st); [|done].
    rewrite IH. by rewrite Nat.add_succ_comm.
Qed.

Lemma order_loop_cons_Done i r rest st st' :
  order_loop i (r :: rest) st = Done st' ↔
  ∃ st1, fulfil i r st = Done st1 ∧ order_loop (S i) rest st1 = Done st'.
Proof.
  simpl. destruct (fulfil i r st) as [st1|st1].
  - split; [eauto|]. by intros (? & [= <-] & ?).
  - split; [done|]. by intros (? & ? & ?).
Qed.

(** The loop only ever appends to the ledger and never touches the
    pool. *)
Lemma order_loop_pool i reqs st st' :
  order_loop i reqs st = Done st' →
  raw_pool (conn_db st') = raw_pool (conn_db st).
Proof.
  revert i st. induction reqs as [|r reqs IH]; intros i st.
  - by intros [= <-].
  - intros (st1 & H1 & Hrest)%order_loop_cons_Done.
    apply fulfil_Done in H1 as (found & _ & _ & _ & ->).
    rewrite (IH _ _ Hrest). apply settle_pool.
Qed.

Lemma order_loop_ledger i reqs st st' :
  order_loop i reqs st = Done st' →
  sales_history (conn_db st) `prefix_of` sales_history (conn_db st').
Proof.
  revert i st. induction reqs as [|r reqs IH]; intros i st.
  - by intros [= <-].
  - intros (st1 & H1 & Hrest)%order_loop_cons_Done.
    apply fulfil_Done in H1 as (found & _ & _ & _ & ->).
    etrans; [|by eapply IH]. rewrite settle_ledger. by apply prefix_app_r.
Qed.

Lemma order_loop_ticks i reqs st st' :
  order_loop i reqs st = Done st' → ticks st ≤ ticks st'.
Proof.
  revert i st. induction reqs as [|r reqs IH]; intros i st.
  - by intros [= <-].
  - intros (st1 & H1 & Hrest)%order_loop_cons_Done.
    apply fulfil_Done in H1 as (found & _ & _ & _ & ->).
    apply IH in Hrest. rewrite settle_ticks in Hrest. lia.
Qed.

(** Every row the loop adds is a sale to this customer, stamped with
    a clock reading taken after the loop was entered. *)
Lemma order_loop_new_rows i reqs st st' s :
  order_loop i reqs st = Done st' →
  s ∈ drop (length (sales_history (conn_db st))) (sales_history (conn_db st')) →
  sold_to s = customer_name ∧ ∃ k, ticks st ≤ k ∧ sold_at s = clk k.
Proof.
  revert i st. induction reqs as [|r reqs IH]; intros i st.
  - intros [= <-]. rewrite drop_all. by intros ?%elem_of_nil.
  - intros (st1 & H1 & Hrest)%order_loop_cons_Done.
    apply fulfil_Done in H1 as (found & _ & _ & _ & ->).
    destruct (order_loop_ledger _ _ _ _ Hrest) as [new Hnew].
    specialize (IH _ _ Hrest). rewrite Hnew in IH |- *.
    rewrite settle_ledger, <-(assoc_L (++)), drop_app_length.
    rewrite drop_app_length in IH.
    intros [Hs|Hs]%elem_of_app.
    + apply elem_of_lookup_imap in Hs as (j & x & -> & Hj). simpl.
      split; [done|]. exists (ticks st + j). split; [lia|done].
    + destruct (IH Hs) as [? (k & Hk & ?)]. split; [done|].
      exists k. rewrite settle_ticks in Hk. split; [lia|done].
Qed.

End loop_facts.

(** ** Reservations made by one round *)

Section round_facts.
Context (query : database → requirement → option (list string)).
Context (report : list string → Z → event).
Context (clk : nat → Z) (fails : db_call → bool) (customer_name : string).

Local Abbreviation fulfil := (fulfil query report clk fails customer_name).
Local Abbreviation order_loop :=
  (order_loop query report clk fails customer_name).
Local Abbreviation settle := (settle report clk customer_name).

Lemma settle_row r found st j x :
  found !! j = Some x →
  SaleRow x customer_name (clk (ticks st + j))
    ∈ sales_history (conn_db (settle r found st)).
Proof.
  intros Hj. rewrite settle_ledger. apply elem_of_app. right.
  unfold sales_records.
  by apply (elem_of_lookup_imap_2
              (λ j num, SaleRow num customer_name (clk (ticks st + j)))).
Qed.

(** The rows written for a requirement are still there when any later
    requirement runs and when the loop ends. *)
Lemma reserved_rows_persist i r rest st st' found j x :
  query (conn_db st) r = Some found →
  order_loop i (r :: rest) st = Done st' →
  found !! j = Some x →
  SaleRow x customer_name (clk (ticks st + j)) ∈ sales_history (conn_db st').
Proof.
  intros Hq (st1 & H1 & Hrest)%order_loop_cons_Done Hj.
  apply fulfil_Done in H1 as (found' & _ & Hq' & _ & ->).
  assert (found' = found) as -> by congruence.
  destruct (order_loop_ledger _ _ _ _ _ _ _ _ _ Hrest) as [new ->].
  apply elem_of_app. left. by apply settle_row.
Qed.

Lemma reserved_stays_sold cutoff i r rest st st' found x :
  (∀ k, (cutoff ≤ clk k)%Z) →
  query (conn_db st) r = Some found →
  order_loop i (r :: rest) st = Done st' →
  x ∈ found →
  sold_since x cutoff (conn_db st').
Proof.
  intros Hclk Hq Hloop (j & Hj)%list_elem_of_lookup_1.
  exists (SaleRow x customer_name (clk (ticks st + j))).
  split_and!; [by eapply reserved_rows_persist|done|apply Hclk].
Qed.



End round_facts.

(** ** The orders as wholes *)

Section order_facts.
Context `{engine}.

Lemma process_order_Done clk fails d customer_name requirements st :
  order_loop (sqlite_query (data_freshness_date clk) (cutoff_date clk))
    sqlite_report
    clk fails customer_name 0 requirements (RunState d 2 ∅ []) = Done st →
  fails Commit = false →
  process_order clk fails d customer_name requirements =
  OrderEnd (Returned (results st)) (conn_db st) (printed st).
Proof. unfold process_order. by intros -> ->. Qed.

Lemma process_order_postgres_Done server_now clk fails d customer_name
    requirements st :
  order_loop (pg_query server_now) pg_report
    clk fails customer_name 0 requirements (RunState d 0 ∅ []) = Done st →
  fails Commit = false →
  process_order_postgres server_now clk fails d customer_name requirements =
  OrderEnd (Returned (results st)) (conn_db st) (printed st).
Proof. unfold process_order_postgres. by intros -> ->. Qed.

(** Whatever happens, the stored tables are either untouched or those
    of a loop that ran to its end and was committed. *)
Lemma process_order_atomic clk fails d customer_name requirements :
  (answer (process_order clk fails d customer_name requirements) = Raised ∧
   stored (process_order clk fails d customer_name requirements) = d) ∨
  (∃ st,
     order_loop (sqlite_query (data_freshness_date clk) (cutoff_date clk))
       sqlite_report
       clk fails customer_name 0 requirements (RunState d 2 ∅ []) = Done st ∧
     fails Commit = false ∧
     process_order clk fails d customer_name requirements =
     OrderEnd (Returned (results st)) (conn_db st) (printed st)).
Proof.
  unfold process_order.
  destruct (order_loop _ _ _ _ _ _ _ _) as [st|st]; [|by left].
  destruct (fails Commit) eqn:Hc; [by left|]. right. by exists st.
Qed.

Lemma process_order_postgres_atomic server_now clk fails d customer_name
    requirements :
  stored (process_order_postgres server_now clk fails d customer_name
            requirements) = d ∨
  (∃ st,
     order_loop (pg_query server_now) pg_report
       clk fails customer_name 0 requirements (RunState d 0 ∅ []) = Done st ∧
     fails Commit = false ∧
     process_order_postgres server_now clk fails d customer_name requirements =
     OrderEnd (Returned (results st)) (conn_db st) (printed st)).
Proof.
  unfold process_order_postgres.
  destruct (order_loop _ _ _ _ _ _ _ _) as [st|st]; [|by left].
  destruct (fails Commit) eqn:Hc; [by left|]. right. by exists st.
Qed.
End order_facts.

(** ** Eligibility *)

(** C4: for every identifier, provider and order time, the identifier is
    a candidate for the provider exactly when it has a pool record of
    that provider ingested within the freshness window (three days) and
    no ledger record within the reuse window (thirty days); in both
    variants, and whatever the query returns is such a candidate. *)
Theorem candidate_eligibility `{engine} (x wanted : string) (clk : nat → Z)
    (server_now : Z) (d : database) :
  (x ∈ sqlite_candidates wanted (data_freshness_date clk) (cutoff_date clk) d ↔
   fresh_in_pool x wanted (clk 1%nat - days 3)%Z d ∧
   ¬ sold_since x (clk 0%nat - days 30)%Z d) ∧
  (x ∈ pg_candidates wanted server_now d ↔
   fresh_in_pool x wanted (server_now - days 3)%Z d ∧
   ¬ sold_since x (server_now - days 30)%Z d) ∧
  (∀ qty found,
     sqlite_query (data_freshness_date clk) (cutoff_date clk) d
       (Req wanted qty) = Some found →
     x ∈ found →
     fresh_in_pool x wanted (clk 1%nat - days 3)%Z d ∧
     ¬ sold_since x (clk 0%nat - days 30)%Z d) ∧
  (∀ qty found,
     pg_query server_now d (Req wanted qty) = Some found →
     x ∈ found →
     fresh_in_pool x wanted (server_now - days 3)%Z d ∧
     ¬ sold_since x (server_now - days 30)%Z d).
Proof.
  split_and!.
  - apply elem_of_sqlite_candidates.
  - apply elem_of_pg_candidates.
  - intros qty found Hq Hx. apply sqlite_query_sublist in Hq.
    apply (elem_of_sqlite_candidates x wanted). by eapply elem_of_sublist.
  - intros qty found Hq Hx. apply pg_query_sublist in Hq.
    apply (elem_of_pg_candidates x wanted). by eapply elem_of_sublist.
Qed.

(** A number ingested ten days ago is no candidate, whatever the
    ledger holds; a number sold five days ago is none either, and is
    one again thirty-one days after the sale. *)
Lemma candidate_eligibility_witness :
  let stale := Database [row "081200000001" (noon - days 10)] [] in
  let sold := Database [row "081200000001" noon]
                [SaleRow "081200000001" "Anto" (noon - days 5)] in
  let long_sold := Database [row "081200000001" noon]
                     [SaleRow "081200000001" "Anto" (noon - days 31)] in
  (¬ fresh_in_pool "081200000001" "tsel" (noon - days 3) stale) ∧
  sqlite_query (H:=storage_order) (data_freshness_date at_noon)
    (cutoff_date at_noon) stale (Req "tsel" 5) = Some [] ∧
  pg_query (H:=storage_order) noon sold (Req "tsel" 5) = Some [] ∧
  (fresh_in_pool "081200000001" "tsel" (noon - days 3) long_sold ∧
   ¬ sold_since "081200000001" (noon - days 30) long_sold) ∧
  (fresh_in_pool "081200000001" "tsel" (at_noon 1 - days 3) long_sold ∧
   ¬ sold_since "081200000001" (at_noon 0 - days 30) long_sold).
Proof.
  intros stale sold long_sold.
  pose proof (candidate_eligibility (H:=storage_order) "081200000001" "tsel"
                at_noon noon stale) as (Hs & _).
  pose proof (candidate_eligibility (H:=storage_order) "081200000001" "tsel"
                at_noon noon long_sold) as (_ & _ & Hq & Hl).
  destruct (Hl 5%Z ["081200000001"] eq_refl (list_elem_of_here _ _))
    as [Hfresh Hunsold].
  destruct (Hq 5%Z ["081200000001"] eq_refl (list_elem_of_here _ _))
    as [Hfresh' Hunsold'].
  split_and!.
  - intros Hf. assert (Hin : "081200000001" ∈ @nil string); [|by inversion Hin].
    change (@nil string) with
      (sqlite_candidates (H:=storage_order) "tsel" (data_freshness_date at_noon)
         (cutoff_date at_noon) stale).
    apply Hs. split; [exact Hf|]. intros (s & Hin & _). inversion Hin.
  - reflexivity.
  - reflexivity.
  - exact Hfresh.
  - exact Hunsold.
  - exact Hfresh'.
  - exact Hunsold'.
Defined.

(** ** Duplicate pool records *)

(** The SQLite query never returns a number twice. *)
Lemma sqlite_allocation_NoDup `{engine} (clk : nat → Z) (d : database)
    (r : requirement) (found : list string) :
  sqlite_query (data_freshness_date clk) (cutoff_date clk) d r = Some found →
  NoDup found.
Proof. apply NoDup_sqlite_query. Qed.

(** C5 fails on the PostgreSQL path: with one number ingested twice,
    whatever the order of the rows, the query of an order for two
    numbers returns that number twice; both copies are written to the
    ledger and returned to the caller. The SQLite path, whose query
    groups by number, returns it once. *)
Theorem pg_selects_duplicate_rows :
  (∀ E : engine, ∃ found,
     pg_query (H:=E) noon twice_ingested (Req "tsel" 2) = Some found ∧
     ¬ NoDup found) ∧
  process_order_postgres (H:=storage_order) noon at_noon reliable
    twice_ingested "Anto" [Req "tsel" 2] =
  OrderEnd
    (Returned {[ "tsel" := ["081200000001"; "081200000001"] ]})
    (Database (raw_pool twice_ingested)
       [SaleRow "081200000001" "Anto" noon;
        SaleRow "081200000001" "Anto" noon])
    [Success 2] ∧
  process_order (H:=storage_order) at_noon reliable
    twice_ingested "Anto" [Req "tsel" 2] =
  OrderEnd
    (Returned {[ "tsel" := ["081200000001"] ]})
    (Database (raw_pool twice_ingested) [SaleRow "081200000001" "Anto" noon])
    [Warning 1].
Proof.
  split_and!; [|by vm_compute..].
  intros E. eexists. split; [reflexivity|]. cbn [req_provider req_qty].
  change (pg_candidates "tsel" noon twice_ingested)
    with (emit ["081200000001"; "081200000001"]).
  rewrite take_ge by (by rewrite length_emit).
  rewrite NoDup_emit. intros Hnd. apply NoDup_cons_1_1 in Hnd.
  apply Hnd, list_elem_of_here.
Qed.

(** ** Requirements of one order *)

(** C6: the requirements of an order are processed in their given
    sequence, and (with a clock that never reads earlier than the reuse
    cutoff of the order) every identifier reserved for a requirement is
    outside the candidate set of every later requirement of that order,
    so no later requirement receives it; in both variants. *)
Theorem later_requirements_exclude_earlier `{engine} (clk : nat → Z)
    (fails : db_call → bool) (customer_name : string) (i : nat)
    (r : requirement) (mid : list requirement) (r' : requirement)
    (x : string) :
  (∀ query report pre post st,
     order_loop query report clk fails customer_name i (pre ++ post) st =
     match order_loop query report clk fails customer_name i pre st with
     | Done st' =>
         order_loop query report clk fails customer_name (i + length pre)
           post st'
     | Exn st' => Exn st'
     end) ∧
  (∀ st1 st3 found,
     (∀ k, (cutoff_date clk ≤ clk k)%Z) →
     sqlite_query (data_freshness_date clk) (cutoff_date clk) (conn_db st1) r
       = Some found →
     order_loop (sqlite_query (data_freshness_date clk) (cutoff_date clk))
       sqlite_report clk fails customer_name i (r :: mid) st1 = Done st3 →
     x ∈ found →
     (x ∉ sqlite_candidates (req_provider r') (data_freshness_date clk)
            (cutoff_date clk) (conn_db st3)) ∧
     ∀ found',
       sqlite_query (data_freshness_date clk) (cutoff_date clk) (conn_db st3) r'
         = Some found' →
       x ∉ found') ∧
  (∀ server_now st1 st3 found,
     (∀ k, (server_now - days 30 ≤ clk k)%Z) →
     pg_query server_now (conn_db st1) r = Some found →
     order_loop (pg_query server_now) pg_report clk fails customer_name i
       (r :: mid) st1 = Done st3 →
     x ∈ found →
     (x ∉ pg_candidates (req_provider r') server_now (conn_db st3)) ∧
     ∀ found', pg_query server_now (conn_db st3) r' = Some found' → x ∉ found').
Proof.
  split_and!.
  - intros. apply order_loop_app.
  - intros st1 st3 found Hclk Hq Hloop Hx.
    pose proof (reserved_stays_sold _ _ _ _ _ _ _ _ _ _ _ _ _ Hclk Hq Hloop Hx)
      as Hsold.
    assert (x ∉ sqlite_candidates (req_provider r') (data_freshness_date clk)
                  (cutoff_date clk) (conn_db st3)) as Hout.
    { rewrite elem_of_sqlite_candidates. by intros [_ []]. }
    split; [done|]. intros found' Hq' Hx'. apply Hout.
    eapply elem_of_sublist; [done|by apply sqlite_query_sublist].
  - intros server_now st1 st3 found Hclk Hq Hloop Hx.
    pose proof (reserved_stays_sold _ _ _ _ _ _ _ _ _ _ _ _ _ Hclk Hq Hloop Hx)
      as Hsold.
    assert (x ∉ pg_candidates (req_provider r') server_now (conn_db st3))
      as Hout.
    { rewrite elem_of_pg_candidates. by intros [_ []]. }
    split; [done|]. intros found' Hq' Hx'. apply Hout.
    eapply elem_of_sublist; [done|by apply pg_query_sublist].
Qed.

(** Two requirements for [tsel] in one order over two fresh numbers: the
    second does not receive the number of the first. *)
Lemma later_requirements_exclude_earlier_witness :
  ("081200000001"
     ∉ sqlite_candidates (H:=storage_order) "tsel" (data_freshness_date at_noon)
         (cutoff_date at_noon)
         (Database (raw_pool small_pool) [SaleRow "081200000001" "Anto" noon])) ∧
  ("081200000001"
     ∉ pg_candidates (H:=storage_order) "tsel" noon
         (Database (raw_pool small_pool) [SaleRow "081200000001" "Anto" noon])).
Proof.
  pose proof (later_requirements_exclude_earlier (H:=storage_order) at_noon
                reliable "Anto" 0 (Req "tsel" 1) [] (Req "tsel" 1)
                "081200000001") as (_ & Hs & Hp).
  split.
  - refine (proj1 (Hs (RunState small_pool 2 ∅ [])
                      (RunState
                         (Database (raw_pool small_pool)
                            [SaleRow "081200000001" "Anto" noon])
                         3 {[ "tsel" := ["081200000001"] ]} [Success 1])
                      ["081200000001"] _ _ _ _)).
    + intros k. unfold cutoff_date, at_noon, days. lia.
    + reflexivity.
    + vm_compute. reflexivity.
    + apply list_elem_of_here.
  - refine (proj1 (Hp noon (RunState small_pool 0 ∅ [])
                      (RunState
                         (Database (raw_pool small_pool)
                            [SaleRow "081200000001" "Anto" noon])
                         1 {[ "tsel" := ["081200000001"] ]} [Success 1])
                      ["081200000001"] _ _ _ _)).
    + intros k. unfold at_noon, days. lia.
    + reflexivity.
    + vm_compute. reflexivity.
    + apply list_elem_of_here.
Defined.

(** ** What the caller gets back *)

Section result_facts.
Context (query : database → requirement → option (list string)).
Context (report : list string → Z → event).
Context (clk : nat → Z) (fails : db_call → bool) (customer_name : string).

Local Abbreviation order_loop :=
  (order_loop query report clk fails customer_name).





End result_facts.

Section short_queries.
Context `{engine}.


End short_queries.

(** ** Loops that run to their end *)

Section completion.
Context `{engine}.

Lemma order_loop_printed query report clk fails customer_name i reqs st st' :
  order_loop query report clk fails customer_name i reqs st = Done st' →
  length (printed st') = length (printed st) + length reqs.
Proof.
  revert i st. induction reqs as [|r reqs IH]; intros i st.
  - intros [= <-]. simpl. lia.
  - intros (st1 & H1 & Hrest)%order_loop_cons_Done.
    apply fulfil_Done in H1 as (found & _ & _ & _ & ->).
    rewrite (IH _ _ Hrest), settle_printed, length_app. simpl. lia.
Qed.

Lemma sqlite_loop_completes report clk customer_name fresh cutoff i reqs st :
  Forall (λ r, fits_int64 (req_qty r)) reqs →
  ∃ st', order_loop (sqlite_query fresh cutoff) report clk reliable
           customer_name i reqs st = Done st'.
Proof.
  intros Hall. revert i st.
  induction Hall as [|r reqs Hr _ IH]; intros i st; simpl; [eauto|].
  unfold fulfil. cbn [reliable]. rewrite sqlite_query_fits by done.
  destruct (sqlite_limit _ _); apply IH.
Qed.

Lemma sqlite_loop_raises report clk customer_name fresh cutoff i reqs st :
  Exists (λ r, ¬ fits_int64 (req_qty r)) reqs →
  ∃ st', order_loop (sqlite_query fresh cutoff) report clk reliable
           customer_name i reqs st = Exn st'.
Proof.
  intros Hsome. revert i st.
  induction Hsome as [r reqs Hr|r reqs _ IH]; intros i st; simpl.
  - unfold fulfil. cbn [reliable]. rewrite sqlite_query_overflow by done.
    eauto.
  - destruct (fulfil _ _ _ _ _ _ _ _); [apply IH|eauto].
Qed.

Lemma pg_loop_completes report clk customer_name server_now i reqs st :
  Forall (λ r, (0 ≤ req_qty r ≤ int64_max)%Z) reqs →
  ∃ st', order_loop (pg_query server_now) report clk reliable customer_name
           i reqs st = Done st'.
Proof.
  intros Hall. revert i st.
  induction Hall as [|r reqs Hr _ IH]; intros i st; simpl; [eauto|].
  unfold fulfil. cbn [reliable]. rewrite pg_query_fits by done.
  destruct (take _ _); apply IH.
Qed.

Lemma pg_loop_raises report clk customer_name server_now i reqs st :
  Exists (λ r, ¬ (0 ≤ req_qty r ≤ int64_max)%Z) reqs →
  ∃ st', order_loop (pg_query server_now) report clk reliable customer_name
           i reqs st = Exn st'.
Proof.
  intros Hsome. revert i st.
  induction Hsome as [r reqs Hr|r reqs _ IH]; intros i st; simpl.
  - unfold fulfil. cbn [reliable]. rewrite pg_query_rejected by done. eauto.
  - destruct (fulfil _ _ _ _ _ _ _ _); [apply IH|eauto].
Qed.
End completion.

(** ** Shortage *)




(** ** Requirements that find nothing *)




(** ** Two requirements of one provider *)




(** ** Failure of an order *)

(** On both paths the ledger is all-or-nothing: the stored ledger
    after an order is either the ledger before it, or the ledger of a
    loop that ran through all requirements and was committed. *)
Lemma order_is_all_or_nothing `{engine} (clk : nat → Z)
    (fails : db_call → bool) (d : database) (customer_name : string)
    (requirements : list requirement) (server_now : Z) :
  (stored (process_order clk fails d customer_name requirements) = d ∨
   ∃ st,
     order_loop (sqlite_query (data_freshness_date clk) (cutoff_date clk))
       sqlite_report
       clk fails customer_name 0 requirements (RunState d 2 ∅ []) = Done st ∧
     stored (process_order clk fails d customer_name requirements) = conn_db st) ∧
  (stored (process_order_postgres server_now clk fails d customer_name
             requirements) = d ∨
   ∃ st,
     order_loop (pg_query server_now) pg_report
       clk fails customer_name 0 requirements (RunState d 0 ∅ []) = Done st ∧
     stored (process_order_postgres server_now clk fails d customer_name
               requirements) = conn_db st).
Proof.
  split.
  - destruct (process_order_atomic clk fails d customer_name requirements)
      as [[_ ?]|(st & ? & _ & Heq)]; [by left|].
    right. exists st. by rewrite Heq.
  - destruct (process_order_postgres_atomic server_now clk fails d
                customer_name requirements) as [?|(st & ? & _ & Heq)];
      [by left|].
    right. exists st. by rewrite Heq.
Qed.

(** C2 fails on the PostgreSQL path: when the query of the second
    requirement raises, the order is rolled back (the stored ledger is
    the one before the order), and yet the function returns, without an
    error, the dictionary filled by the first requirement, naming a
    number whose reservation no longer exists. The same happens when
    the failure is the error PostgreSQL raises for a negative [LIMIT].
    On the SQLite path the same failure reaches the caller as an
    exception. *)
Theorem pg_failed_order_returns_partial_result :
  process_order_postgres (H:=storage_order) noon at_noon second_select_fails
    small_pool "Anto" [Req "tsel" 1; Req "isat" 1] =
  OrderEnd (Returned {[ "tsel" := ["081200000001"] ]}) small_pool [Success 1] ∧
  process_order_postgres (H:=storage_order) noon at_noon reliable
    small_pool "Anto" [Req "tsel" 1; Req "isat" (-1)] =
  OrderEnd (Returned {[ "tsel" := ["081200000001"] ]}) small_pool [Success 1] ∧
  process_order (H:=storage_order) at_noon second_select_fails
    small_pool "Anto" [Req "tsel" 1; Req "isat" 1] =
  OrderEnd Raised small_pool [Success 1].
Proof. split_and!; by vm_compute. Qed.

(** ** Two orders at once *)

(** Run one after the other, the two orders behave as two calls of
    [process_order]: the second finds nothing. *)
Example serial_orders_agree :
  let query := sqlite_query (H:=storage_order) (data_freshness_date at_noon)
                 (cutoff_date at_noon) in
  let w := run_schedule query at_noon serial_schedule racing in
  let one := process_order (H:=storage_order) at_noon reliable one_tsel "Anto"
               [Req "tsel" 1] in
  let two := process_order (H:=storage_order) at_noon reliable (stored one)
               "Budi" [Req "tsel" 1] in
  committed w = stored two ∧
  Returned (txn_results (first w)) = answer one ∧
  Returned (txn_results (second w)) = answer two ∧
  txn_results (second w) !! "tsel" = None.
Proof. split_and!; by vm_compute. Qed.

(** C1 fails on the code: with the statements of two orders
    interleaved as query, query, insert, commit, insert, commit, both
    orders select the only fresh [tsel] number, both write it to the
    ledger, both commit and both return it. Neither variant holds a
    lock between its query and its insert, and neither has a retry. *)
Theorem concurrent_orders_sell_twice :
  (let query := sqlite_query (H:=storage_order) (data_freshness_date at_noon)
                  (cutoff_date at_noon) in
   let w := run_schedule query at_noon racy_schedule racing in
   at_stage (first w) = Ended ∧ at_stage (second w) = Ended ∧
   txn_results (first w) !! "tsel" = Some ["081200000001"] ∧
   txn_results (second w) !! "tsel" = Some ["081200000001"] ∧
   sales_history (committed w) =
   [SaleRow "081200000001" "Anto" noon; SaleRow "081200000001" "Budi" noon]) ∧
  (let query := pg_query (H:=storage_order) noon in
   let w := run_schedule query at_noon racy_schedule racing in
   at_stage (first w) = Ended ∧ at_stage (second w) = Ended ∧
   txn_results (first w) !! "tsel" = Some ["081200000001"] ∧
   txn_results (second w) !! "tsel" = Some ["081200000001"] ∧
   sales_history (committed w) =
   [SaleRow "081200000001" "Anto" noon; SaleRow "081200000001" "Budi" noon]).
Proof. split; vm_compute; by split_and!. Qed.

(** ** Partitions *)

Lemma to_regclass_true name catalog :
  to_regclass name catalog = true ↔ name ∈ rel_name <$> catalog.
Proof. unfold to_regclass. by rewrite bool_decide_eq_true. Qed.

Lemma create_partition_Some name lo hi catalog catalog' :
  create_partition name lo hi catalog = Some catalog' →
  catalog' = catalog ++ [Relation name (Some (lo, hi))] ∧
  name ∉ rel_name <$> catalog.
Proof.
  unfold create_partition. case_decide as Hok; [|done].
  intros [= <-]. by destruct Hok as (_ & ? & _).
Qed.

(** A round for a day either finds the name and changes nothing, or
    appends one partition under a name that was free. *)
Lemma ensure_day_Some base_date i st st' :
  ensure_day base_date i st = Some st' →
  ∃ day_start day_end,
    add_days base_date i = Some day_start ∧
    add_days day_start 1 = Some day_end ∧
    part_name day_start ∈ rel_name <$> st'.1 ∧
    ((st' = st ∧ part_name day_start ∈ rel_name <$> st.1) ∨
     (st'.1 = st.1 ++ [Relation (part_name day_start)
                         (Some (day_start, day_end))] ∧
      st'.2 = st.2 ++ [part_name day_start] ∧
      part_name day_start ∉ rel_name <$> st.1)).
Proof.
  unfold ensure_day.
  destruct (add_days base_date i) as [day_start|] eqn:Hs; [simpl|done].
  destruct (add_days day_start 1) as [day_end|] eqn:He; [simpl|done].
  destruct (to_regclass (part_name day_start) st.1) eqn:Hreg.
  - intros [= <-]. apply to_regclass_true in Hreg.
    exists day_start, day_end. eauto 10.
  - destruct (create_partition _ _ _ _) as [catalog'|] eqn:Hc; [simpl|done].
    intros [= <-]. apply create_partition_Some in Hc as [-> Hfree].
    exists day_start, day_end. split_and!; [done..| |].
    + simpl. rewrite fmap_app. apply elem_of_app. right. apply list_elem_of_here.
    + right. by simpl.
Qed.

Lemma ensure_day_present base_date i st day_start day_end :
  add_days base_date i = Some day_start →
  add_days day_start 1 = Some day_end →
  part_name day_start ∈ rel_name <$> st.1 →
  ensure_day base_date i st = Some st.
Proof.
  intros Hs He Hin. unfold ensure_day. rewrite Hs. simpl. rewrite He. simpl.
  apply to_regclass_true in Hin. by rewrite Hin.
Qed.

Lemma ensure_day_grows base_date i st st' :
  ensure_day base_date i st = Some st' →
  st.1 `prefix_of` st'.1 ∧ st.2 `prefix_of` st'.2.
Proof.
  intros (ds & de & _ & _ & _ & [[-> _]|(-> & -> & _)])%ensure_day_Some.
  - done.
  - split; by apply prefix_app_r.
Qed.

Lemma ensure_days_grows base_date range st st' :
  ensure_days base_date range st = Some st' →
  st.1 `prefix_of` st'.1 ∧ st.2 `prefix_of` st'.2.
Proof.
  revert st. induction range as [|i range IH]; intros st; simpl.
  - by intros [= <-].
  - destruct (ensure_day base_date i st) as [st1|] eqn:H1; [simpl|done].
    intros [? ?]%IH. apply ensure_day_grows in H1 as [? ?].
    split; by etrans.
Qed.

(** After a run that did not raise, every day of the range is valid
    and has its partition name in the catalog. *)
Lemma ensure_days_Some base_date range st st' :
  ensure_days base_date range st = Some st' →
  Forall (λ i, ∃ day_start day_end,
            add_days base_date i = Some day_start ∧
            add_days day_start 1 = Some day_end ∧
            part_name day_start ∈ rel_name <$> st'.1) range.
Proof.
  revert st. induction range as [|i range IH]; intros st; simpl.
  - by constructor.
  - destruct (ensure_day base_date i st) as [st1|] eqn:H1; [simpl|done].
    intros Hrest. constructor; [|by eapply IH].
    apply ensure_day_Some in H1 as (ds & de & Hs & He & Hin & _).
    exists ds, de. split_and!; [done..|].
    apply ensure_days_grows in Hrest as [[extra ->] _].
    rewrite fmap_app. apply elem_of_app. by left.
Qed.

Lemma ensure_days_present base_date range st :
  Forall (λ i, ∃ day_start day_end,
            add_days base_date i = Some day_start ∧
            add_days day_start 1 = Some day_end ∧
            part_name day_start ∈ rel_name <$> st.1) range →
  ensure_days base_date range st = Some st.
Proof.
  induction 1 as [|i range (ds & de & Hs & He & Hin) _ IH]; simpl; [done|].
  by rewrite (ensure_day_present _ _ _ _ _ Hs He Hin).
Qed.

(** Every name a run reports as created was free before the run and is
    in the catalog after it. *)
Lemma ensure_days_created base_date range st st' name :
  ensure_days base_date range st = Some st' →
  name ∈ drop (length st.2) st'.2 →
  (name ∉ rel_name <$> st.1) ∧ name ∈ rel_name <$> st'.1.
Proof.
  revert st. induction range as [|i range IH]; intros st; simpl.
  - intros [= <-]. rewrite drop_all. by intros ?%elem_of_nil.
  - destruct (ensure_day base_date i st) as [st1|] eqn:H1; [simpl|done].
    intros Hrest Hin.
    pose proof (ensure_days_grows _ _ _ _ Hrest) as [[extra Hextra] _].
    apply ensure_day_Some in H1
      as (ds & de & _ & _ & Hin1 & [[-> _]|(Hcat & Hmade & Hfree)]).
    + by apply IH.
    + destruct (ensure_days_grows _ _ _ _ Hrest) as [_ [more Hmore]].
      rewrite Hmore, Hmade, <-(assoc_L (++)), drop_app_length in Hin.
      apply elem_of_cons in Hin as [->|Hin].
      * split; [done|]. rewrite Hextra, fmap_app. apply elem_of_app. by left.
      * destruct (IH st1 Hrest) as [Hout ?].
        { by rewrite Hmore, drop_app_length. }
        split; [|done]. intros Hold. apply Hout.
        rewrite Hcat, fmap_app. apply elem_of_app. by left.
Qed.

(** C8: partition creation is idempotent: a second call of
    [init_db_partitions] on the same day leaves the catalog the first
    call left and creates no partition; every partition the first call
    created was absent before it (existence is checked before each
    create) and is present after it. *)
Theorem init_db_partitions_idempotent (today : Z) (catalog : list relation) :
  let once := init_db_partitions today catalog in
  let twice := init_db_partitions today (catalog_after once) in
  catalog_after twice = catalog_after once ∧
  created twice = [] ∧
  ∀ name, name ∈ created once →
          (name ∉ rel_name <$> catalog) ∧
          name ∈ rel_name <$> catalog_after once.
Proof.
  unfold init_db_partitions.
  destruct (ensure_days today [0; 1; 2; 3]%Z (catalog, []))
    as [[catalog' names]|] eqn:Hrun; cbn [catalog_after created].
  - pose proof (ensure_days_Some _ _ _ _ Hrun) as Hall.
    rewrite (ensure_days_present today [0; 1; 2; 3]%Z (catalog', []) Hall).
    split_and!; [done..|]. intros name Hin.
    by apply (ensure_days_created _ _ _ _ name Hrun).
  - rewrite Hrun. split_and!; [done..|]. by intros name ?%elem_of_nil.
Qed.

(** On 2025-12-01, against a catalog that holds only the parent table,
    the first call creates the four partitions and the second none. *)
Example init_db_partitions_sample :
  init_db_partitions 739586 bare_catalog =
  PartitionsEnd
    [ Relation "raw_pool" None;
      Relation "raw_pool_y2025m12d01" (Some (739586, 739587)%Z);
      Relation "raw_pool_y2025m12d02" (Some (739587, 739588)%Z);
      Relation "raw_pool_y2025m12d03" (Some (739588, 739589)%Z);
      Relation "raw_pool_y2025m12d04" (Some (739589, 739590)%Z) ]
    [ "raw_pool_y2025m12d01"; "raw_pool_y2025m12d02";
      "raw_pool_y2025m12d03"; "raw_pool_y2025m12d04" ] ∧
  created (init_db_partitions 739586
             (catalog_after (init_db_partitions 739586 bare_catalog))) = [] ∧
  init_db_partitions 739586 [] = PartitionsEnd [] [].
Proof. split_and!; by vm_compute. Qed.

(** The partitions named by the first call on 2025-12-01 were absent
    before and are present after. *)
Lemma init_db_partitions_idempotent_witness :
  ("raw_pool_y2025m12d01" ∉ rel_name <$> bare_catalog) ∧
  "raw_pool_y2025m12d01"
    ∈ rel_name <$> catalog_after (init_db_partitions 739586 bare_catalog).
Proof.
  apply (init_db_partitions_idempotent 739586 bare_catalog).
  vm_compute. apply list_elem_of_here.
Defined.

(** ** The same order twice *)

Section reorder.
Context `{engine}.

Lemma process_order_single clk d customer_name r found :
  sqlite_query (data_freshness_date clk) (cutoff_date clk) d r = Some found →
  found ≠ [] →
  process_order clk reliable d customer_name [r] =
  OrderEnd (Returned {[ req_provider r := found ]})
    (Database (raw_pool d)
       (sales_history d ++ sales_records clk 2 customer_name found))
    [sqlite_report found (req_qty r)].
Proof.
  intros Hq Hne. unfold process_order. cbn [order_loop]. unfold fulfil.
  cbn [reliable conn_db]. rewrite Hq. by destruct found.
Qed.

Lemma sales_records_phones clk k customer_name found :
  sold_phone <$> sales_records clk k customer_name found = found.
Proof.
  unfold sales_records. rewrite fmap_imap.
  rewrite <-(list_fmap_id found) at 2. by rewrite <-imap_const.
Qed.

Lemma sales_records_at clk k customer_name found s :
  s ∈ sales_records clk k customer_name found → ∃ j, sold_at s = clk (k + j).
Proof. intros (j & x & -> & _)%elem_of_lookup_imap. by exists j. Qed.

(** The candidates after rows have been added to the ledger, all of
    them inside the reuse window: those of before that are not among
    the numbers added. *)
Lemma sqlite_candidates_after_sale wanted fresh cutoff d new x :
  Forall (λ s, (cutoff ≤ sold_at s)%Z) new →
  x ∈ sqlite_candidates wanted fresh cutoff
        (Database (raw_pool d) (sales_history d ++ new)) ↔
  x ∈ sqlite_candidates wanted fresh cutoff d ∧ x ∉ sold_phone <$> new.
Proof.
  intros Hnew. rewrite !elem_of_sqlite_candidates.
  unfold eligible, fresh_in_pool, sold_since. simpl.
  rewrite Forall_forall in Hnew. split.
  - intros [Hfresh Hunsold]. split_and!; [done| |].
    + intros (s & Hs & ? & ?). apply Hunsold. exists s.
      rewrite elem_of_app. eauto.
    + intros (s & -> & Hs)%list_elem_of_fmap. apply Hunsold. exists s.
      rewrite elem_of_app. eauto.
  - intros [[Hfresh Hunsold] Hout]. split; [done|].
    intros (s & [Hs|Hs]%elem_of_app & Hx & Hat).
    + apply Hunsold. eauto.
    + apply Hout. subst x. by apply list_elem_of_fmap_2.
Qed.

Lemma length_filter_complement {A} (P : A → Prop) `{∀ x, Decision (P x)}
    (l : list A) :
  length (filter P l) + length (filter (λ x, ¬ P x) l) = length l.
Proof. by rewrite <-length_app, filter_app_complement. Qed.

(** Taking [sold] out of a duplicate-free list shortens it by at most
    the length of [sold]. *)
Lemma length_without (sold l : list string) :
  NoDup l → length l ≤ length (filter (.∉ sold) l) + length sold.
Proof.
  intros Hl. pose proof (length_filter_complement (.∈ sold) l) as Hsum.
  assert (length (filter (.∈ sold) l) ≤ length sold) as Hin.
  { apply submseteq_length, NoDup_submseteq; [by apply NoDup_filter|].
    by intros x [? _]%list_elem_of_filter. }
  change (filter (λ x, ¬ x ∈ sold) l) with (filter (.∉ sold) l) in Hsum. lia.
Qed.
End reorder.

Section reorder_sqlite.
Context `{engine}.

Lemma sqlite_candidates_after_sale_length wanted fresh cutoff d new :
  Forall (λ s, (cutoff ≤ sold_at s)%Z) new →
  length (sqlite_candidates wanted fresh cutoff d) ≤
  length (sqlite_candidates wanted fresh cutoff
            (Database (raw_pool d) (sales_history d ++ new))) + length new.
Proof.
  intros Hnew.
  assert (sqlite_candidates wanted fresh cutoff
            (Database (raw_pool d) (sales_history d ++ new))
          ≡ₚ filter (.∉ sold_phone <$> new)
               (sqlite_candidates wanted fresh cutoff d)) as ->.
  { apply NoDup_Permutation.
    - apply NoDup_sqlite_candidates.
    - apply NoDup_filter, NoDup_sqlite_candidates.
    - intros x. rewrite list_elem_of_filter.
      rewrite (sqlite_candidates_after_sale _ _ _ _ _ _ Hnew). tauto. }
  rewrite <-(length_fmap sold_phone new).
  apply length_without, NoDup_sqlite_candidates.
Qed.

Lemma sqlite_query_take fresh cutoff d wanted qty :
  (0 < qty ≤ int64_max)%Z →
  (qty ≤ Z.of_nat (length (sqlite_candidates wanted fresh cutoff d)))%Z →
  let found := take (Z.to_nat qty) (sqlite_candidates wanted fresh cutoff d) in
  sqlite_query fresh cutoff d (Req wanted qty) = Some found ∧
  Z.of_nat (length found) = qty ∧ found ≠ [] ∧ NoDup found.
Proof.
  intros Hpos Hlen found. split_and!.
  - rewrite sqlite_query_fits by (unfold fits_int64, int64_min; simpl; lia).
    unfold sqlite_limit. simpl. by rewrite decide_False by lia.
  - unfold found. rewrite length_take_le by lia. lia.
  - intros Hnil. assert (length found = Z.to_nat qty) as Hl.
    { unfold found. rewrite length_take_le by lia. done. }
    rewrite Hnil in Hl. simpl in Hl. lia.
  - eapply sublist_NoDup; [apply NoDup_sqlite_candidates|apply sublist_take].
Qed.

(** Re-ordering on the SQLite path: when at least [2 * qty] numbers of
    the provider are fresh and unsold at the time of either order, and
    the second order starts while the sales of the first are inside its
    reuse window, then the same order for [qty] numbers, run twice in a
    row, is met twice in full, with two duplicate-free lists that share
    no number. *)
Lemma sqlite_reorder_disjoint (clk1 clk2 : nat → Z) (d : database)
    (customer1 customer2 wanted : string) (qty : Z) :
  (0 < qty ≤ int64_max)%Z →
  (2 * qty ≤ Z.of_nat (length (sqlite_candidates wanted
                                 (data_freshness_date clk1) (cutoff_date clk1)
                                 d)))%Z →
  (2 * qty ≤ Z.of_nat (length (sqlite_candidates wanted
                                 (data_freshness_date clk2) (cutoff_date clk2)
                                 d)))%Z →
  (∀ k, (cutoff_date clk2 ≤ clk1 k)%Z) →
  let one := process_order clk1 reliable d customer1 [Req wanted qty] in
  let two := process_order clk2 reliable (stored one) customer2
               [Req wanted qty] in
  ∃ found1 found2,
    answer one = Returned {[ wanted := found1 ]} ∧
    answer two = Returned {[ wanted := found2 ]} ∧
    Z.of_nat (length found1) = qty ∧ Z.of_nat (length found2) = qty ∧
    NoDup found1 ∧ NoDup found2 ∧
    ∀ x, x ∈ found1 → x ∉ found2.
Proof.
  intros Hpos Hlen1 Hlen2 Hclk one two.
  destruct (sqlite_query_take (data_freshness_date clk1) (cutoff_date clk1) d
              wanted qty) as (Hq1 & Hl1 & Hne1 & Hnd1); [lia..|].
  set (found1 := take (Z.to_nat qty)
                   (sqlite_candidates wanted (data_freshness_date clk1)
                      (cutoff_date clk1) d)) in *.
  pose proof (process_order_single clk1 d customer1 _ _ Hq1 Hne1) as Hone.
  fold one in Hone. cbn [req_provider] in Hone.
  set (new := sales_records clk1 2 customer1 found1) in *.
  assert (Forall (λ s, (cutoff_date clk2 ≤ sold_at s)%Z) new) as Hnew.
  { apply Forall_forall. intros s [j ->]%sales_records_at. apply Hclk. }
  assert (length new = length found1) as Hnewlen.
  { unfold new, sales_records. by rewrite length_imap. }
  pose proof (sqlite_candidates_after_sale_length wanted
                (data_freshness_date clk2) (cutoff_date clk2) d new Hnew)
    as Hleft.
  assert (stored one = Database (raw_pool d) (sales_history d ++ new)) as Hd1
    by by rewrite Hone.
  destruct (sqlite_query_take (data_freshness_date clk2) (cutoff_date clk2)
              (stored one) wanted qty) as (Hq2 & Hl2 & Hne2 & Hnd2);
    [lia|rewrite Hd1; lia|].
  set (found2 := take (Z.to_nat qty)
                   (sqlite_candidates wanted (data_freshness_date clk2)
                      (cutoff_date clk2) (stored one))) in *.
  pose proof (process_order_single clk2 (stored one) customer2 _ _ Hq2 Hne2)
    as Htwo.
  fold two in Htwo. cbn [req_provider] in Htwo.
  exists found1, found2. rewrite Hone, Htwo. split_and!; [done..|].
  intros x Hx1 Hx2.
  assert (x ∈ sqlite_candidates wanted (data_freshness_date clk2)
                (cutoff_date clk2) (stored one)) as Hc.
  { eapply elem_of_sublist; [done|apply sublist_take]. }
  rewrite Hd1 in Hc.
  apply (sqlite_candidates_after_sale _ _ _ _ _ _ Hnew) in Hc as [_ Hout].
  apply Hout. unfold new. by rewrite sales_records_phones.
Qed.

(** The re-order of the test scenario: 5000 numbers, twice, with at
    least 10000 to take from. *)
Lemma sqlite_reorder_disjoint_5000 (clk1 clk2 : nat → Z) (d : database)
    (customer1 customer2 wanted : string) :
  (10000 ≤ Z.of_nat (length (sqlite_candidates wanted
                               (data_freshness_date clk1) (cutoff_date clk1)
                               d)))%Z →
  (10000 ≤ Z.of_nat (length (sqlite_candidates wanted
                               (data_freshness_date clk2) (cutoff_date clk2)
                               d)))%Z →
  (∀ k, (cutoff_date clk2 ≤ clk1 k)%Z) →
  let one := process_order clk1 reliable d customer1 [Req wanted 5000] in
  let two := process_order clk2 reliable (stored one) customer2
               [Req wanted 5000] in
  ∃ found1 found2,
    answer one = Returned {[ wanted := found1 ]} ∧
    answer two = Returned {[ wanted := found2 ]} ∧
    Z.of_nat (length found1) = 5000%Z ∧ Z.of_nat (length found2) = 5000%Z ∧
    NoDup found1 ∧ NoDup found2 ∧
    ∀ x, x ∈ found1 → x ∉ found2.
Proof. intros. by apply sqlite_reorder_disjoint. Qed.
End reorder_sqlite.

(** C7 fails on the PostgreSQL path: when a number has been ingested
    twice, whatever else the pool holds (10000 distinct fresh numbers,
    say), the rows of [tsel] come out with that number twice, so that
    the first of two orders for 5000 is given a list that repeats it:
    not a set of 5000 numbers. *)
Theorem pg_reorder_repeats_a_number (rest : list (string * string * Z)) :
  ∃ found ledger,
    process_order_postgres (H:=storage_order) noon at_noon reliable
      (reingested rest) "Anto" [Req "tsel" 5000] =
    OrderEnd (Returned {[ "tsel" := found ]})
      (Database (raw_pool (reingested rest)) ledger)
      [pg_report found 5000] ∧
    ¬ NoDup found.
Proof.
  set (tail := anti_join "tsel" (noon - days 3) (noon - days 30)
                 (ingest_file "b.csv" rest empty_db)).
  assert (pg_query (H:=storage_order) noon (reingested rest)
            (Req "tsel" 5000) =
          Some ("081200000001" :: "081200000001" :: take 4998 tail)) as Hq.
  { by rewrite pg_query_fits. }
  eexists _, _. split.
  - unfold process_order_postgres. cbn [order_loop]. unfold fulfil.
    cbn [reliable conn_db]. rewrite Hq. cbn [reliable]. reflexivity.
  - intros Hnd. apply NoDup_cons_1_1 in Hnd. apply Hnd, list_elem_of_here.
Qed.

(** ** One order alone on the interleaving machine *)

Section solo.
Context (query : database → requirement → option (list string)).
Context (report : list string → Z → event).
Context (clk : nat → Z).

Local Abbreviation run := (run_schedule query clk).

Lemma run_schedule_app s1 s2 w : run (s1 ++ s2) w = run s2 (run s1 w).
Proof. apply foldl_app. Qed.

(** An order whose statements are not interleaved with those of
    another ends with the ledger and the results of [order_loop], and
    leaves the other order as it was. *)
Lemma solo_order_matches_loop i requirements shared t other st st' :
  at_stage t = Selecting →
  todo t = requirements →
  conn_db st = view shared t →
  ticks st = txn_ticks t →
  results st = txn_results t →
  order_loop query report clk reliable (txn_customer t) i requirements st
    = Done st' →
  ∃ n t',
    run (replicate n true) (World shared t other) =
    World (conn_db st') t' other ∧
    at_stage t' = Ended ∧ txn_results t' = results st'.
Proof.
  revert i t st. induction requirements as [|r rest IH]; intros i t st.
  - intros Hstage Htodo Hdb Hticks Hres [= <-].
    exists 1, (Txn (txn_customer t) [] Ended [] (txn_ticks t) (txn_results t)).
    split_and!; [|done..].
    simpl. unfold world_step, txn_step. simpl. by rewrite Hstage, Htodo, Hdb.
  - intros Hstage Htodo Hdb Hticks Hres
      (st1 & H1 & Hrest)%order_loop_cons_Done.
    apply fulfil_Done in H1 as (found & _ & Hq & _ & ->).
    rewrite Hdb in Hq. destruct found as [|x found].
    + destruct (IH (S i)
                  (Txn (txn_customer t) rest Selecting (pending t) (txn_ticks t)
                     (txn_results t))
                  (settle report clk (txn_customer t) r [] st))
        as (n & t' & Hrun & Hend & Hout); [done..|].
      exists (S n), t'. split_and!; [|done..].
      rewrite <-Hrun. simpl. f_equal.
      unfold world_step, txn_step. simpl. by rewrite Hstage, Htodo, Hq.
    + destruct (IH (S i)
                  (Txn (txn_customer t) rest Selecting
                     (pending t ++
                      sales_records clk (txn_ticks t) (txn_customer t)
                        (x :: found))
                     (txn_ticks t + length (x :: found))
                     (<[req_provider r := x :: found]> (txn_results t)))
                  (settle report clk (txn_customer t) r (x :: found) st))
        as (n & t' & Hrun & Hend & Hout); [done|done| | | |done|].
      * simpl. rewrite Hdb, Hticks. unfold view. simpl.
        by rewrite (assoc_L (++)).
      * simpl. by rewrite Hticks.
      * simpl. by rewrite Hres.
      * exists (S (S n)), t'. split_and!; [|done..].
        rewrite <-Hrun. simpl. f_equal.
        unfold world_step, txn_step. simpl. by rewrite Hstage, Htodo, Hq.
Qed.
End solo.

(** ** Where the entries of the result come from *)

Section origin.
Context (query : database → requirement → option (list string)).
Context (report : list string → Z → event).
Context (clk : nat → Z) (fails : db_call → bool) (customer_name : string).

Local Abbreviation round := (fulfil query report clk fails customer_name).
Local Abbreviation order_loop :=
  (order_loop query report clk fails customer_name).

(** Also when the loop is left by an exception, the connection holds
    the pool it started with and a ledger that extends the one it
    started with. *)
Lemma order_loop_exit_db i reqs st :
  raw_pool (conn_db (exit_state (order_loop i reqs st))) = raw_pool (conn_db st) ∧
  sales_history (conn_db st)
    `prefix_of` sales_history (conn_db (exit_state (order_loop i reqs st))) ∧
  ticks st ≤ ticks (exit_state (order_loop i reqs st)).
Proof.
  revert i st. induction reqs as [|r reqs IH]; intros i st; simpl; [done|].
  destruct (round i r st) as [st1|st1] eqn:H1.
  - apply fulfil_Done in H1 as (found & _ & _ & _ & ->).
    destruct (IH (S i) (settle report clk customer_name r found st)) as (Hp &
      Hl & Ht).
    rewrite settle_pool in Hp. rewrite settle_ticks in Ht.
    split_and!; [done| |lia].
    etrans; [|exact Hl]. rewrite settle_ledger. by apply prefix_app_r.
  - simpl. unfold fulfil in H1.
    destruct (fails (ExecSelect i)); [by injection H1 as <-|].
    destruct (query (conn_db st) r) as [[|x found]|];
      [done| |by injection H1 as <-].
    destruct (fails (ExecInsert i)); [|done]. by injection H1 as <-.
Qed.

(** Every entry of [results] that the loop did not start with is the
    non-empty answer to the query of one of the requirements, asked
    against the pool the loop started with and a ledger extending the
    one it started with; and each of its numbers has a row in the
    ledger of the connection. *)
Lemma order_loop_results_origin i reqs st p l :
  results (exit_state (order_loop i reqs st)) !! p = Some l →
  results st !! p = Some l ∨
  (l ≠ [] ∧
   ∃ r st0,
     r ∈ reqs ∧ req_provider r = p ∧ query (conn_db st0) r = Some l ∧
     raw_pool (conn_db st0) = raw_pool (conn_db st) ∧
     sales_history (conn_db st) `prefix_of` sales_history (conn_db st0) ∧
     ∀ x, x ∈ l →
          ∃ k, ticks st ≤ k ∧
               SaleRow x customer_name (clk k)
                 ∈ sales_history (conn_db (exit_state (order_loop i reqs st)))).
Proof.
  revert i st. induction reqs as [|r reqs IH]; intros i st; simpl; [by left|].
  destruct (round i r st) as [st1|st1] eqn:H1.
  - apply fulfil_Done in H1 as (found & _ & Hq & _ & ->).
    set (st1 := settle report clk customer_name r found st).
    destruct (order_loop_exit_db (S i) reqs st1) as (Hp1 & Hl1 & Ht1).
    intros [Hold|(Hne & r0 & st0 & Hr0 & Hp0 & Hq0 & Hpool & Hpre & Hrows)]%IH.
    + destruct found as [|y found]; [by left|].
      unfold st1 in Hold. rewrite settle_results_cons in Hold by done.
      destruct (decide (req_provider r = p)) as [<-|Hother].
      * rewrite lookup_insert_eq in Hold. injection Hold as <-.
        right. split; [done|]. exists r, st.
        split_and!; [apply list_elem_of_here|done..|].
        intros x (j & Hj)%list_elem_of_lookup_1.
        exists (ticks st + j). split; [lia|].
        destruct Hl1 as [more ->]. apply elem_of_app. left.
        by apply settle_row.
      * rewrite lookup_insert_ne in Hold by done. by left.
    + right. split; [done|]. exists r0, st0.
      unfold st1 in Hpool, Hpre. rewrite settle_pool in Hpool.
      split_and!; [by apply list_elem_of_further|done..| |].
      * etrans; [|exact Hpre]. rewrite settle_ledger. by apply prefix_app_r.
      * intros x Hx. destruct (Hrows x Hx) as (k & Hk & Hrow).
        exists k. split; [|done].
        unfold st1 in Hk. rewrite settle_ticks in Hk. lia.
  - simpl. intros Hold. left.
    destruct (fulfil_Exn _ _ _ _ _ _ _ _ _ H1) as [_ <-]. done.
Qed.
End origin.

(** ** What an order returns and what it stores *)

Section returned.
Context `{engine}.

Lemma process_order_returned clk fails d customer_name requirements result :
  answer (process_order clk fails d customer_name requirements)
    = Returned result →
  ∃ st,
    order_loop (sqlite_query (data_freshness_date clk) (cutoff_date clk))
      sqlite_report clk fails customer_name 0 requirements
      (RunState d 2 ∅ []) = Done st ∧
    result = results st ∧
    stored (process_order clk fails d customer_name requirements) = conn_db st.
Proof.
  destruct (process_order_atomic clk fails d customer_name requirements)
    as [[-> _]|(st & Hloop & _ & ->)]; [done|].
  simpl. intros [= <-]. by exists st.
Qed.

Lemma process_order_origin clk fails d customer_name requirements result p l :
  answer (process_order clk fails d customer_name requirements)
    = Returned result →
  result !! p = Some l →
  l ≠ [] ∧
  ∃ r d0,
    r ∈ requirements ∧ req_provider r = p ∧
    sqlite_query (data_freshness_date clk) (cutoff_date clk) d0 r = Some l ∧
    raw_pool d0 = raw_pool d ∧
    sales_history d `prefix_of` sales_history d0 ∧
    ∀ x, x ∈ l →
         ∃ k, SaleRow x customer_name (clk k)
                ∈ sales_history
                    (stored (process_order clk fails d customer_name
                               requirements)).
Proof.
  intros (st & Hloop & -> & ->)%process_order_returned Hl.
  pose proof (order_loop_results_origin
                (sqlite_query (data_freshness_date clk) (cutoff_date clk))
                sqlite_report clk fails customer_name 0 requirements
                (RunState d 2 ∅ []) p l)
    as Horigin.
  rewrite Hloop in Horigin. simpl in Horigin.
  destruct (Horigin Hl)
    as [?|(Hne & r & st0 & Hr & Hp & Hq & Hpool & Hpre & Hrows)]; [done|].
  split; [done|]. exists r, (conn_db st0). split_and!; [done..|].
  intros x Hx. destruct (Hrows x Hx) as (k & _ & Hrow). by exists k.
Qed.

Lemma process_order_postgres_origin server_now clk fails d customer_name
    requirements result p l :
  answer (process_order_postgres server_now clk fails d customer_name
            requirements) = Returned result →
  result !! p = Some l →
  l ≠ [] ∧
  ∃ r d0,
    r ∈ requirements ∧ req_provider r = p ∧
    pg_query server_now d0 r = Some l ∧
    raw_pool d0 = raw_pool d ∧
    sales_history d `prefix_of` sales_history d0.
Proof.
  intros Hans Hl.
  pose proof (order_loop_results_origin (pg_query server_now) pg_report clk
                fails customer_name 0 requirements (RunState d 0 ∅ []) p l) as Horigin.
  assert (result =
          results (exit_state
                     (order_loop (pg_query server_now) pg_report clk fails
                       customer_name
                        0 requirements (RunState d 0 ∅ [])))) as ->.
  { unfold process_order_postgres in Hans.
    destruct (order_loop _ _ _ _ _ _ _ _) as [st|st]; simpl in *.
    - destruct (fails Commit); simpl in Hans; congruence.
    - congruence. }
  destruct (Horigin Hl)
    as [?|(Hne & r & st0 & Hr & Hp & Hq & Hpool & Hpre & _)]; [done|].
  split; [done|]. exists r, (conn_db st0). by split_and!.
Qed.

Lemma not_sold_since_prefix x cutoff d d0 :
  raw_pool d0 = raw_pool d →
  sales_history d `prefix_of` sales_history d0 →
  ¬ sold_since x cutoff d0 → ¬ sold_since x cutoff d.
Proof.
  intros _ [more Hmore] Hnot (s & Hs & Hx & Hat). apply Hnot.
  exists s. rewrite Hmore, elem_of_app. eauto.
Qed.

Lemma fresh_in_pool_same x wanted since d d0 :
  raw_pool d0 = raw_pool d →
  fresh_in_pool x wanted since d0 → fresh_in_pool x wanted since d.
Proof. unfold fresh_in_pool. by intros ->. Qed.

Lemma process_order_eligible clk fails d customer_name requirements result
    p l x :
  answer (process_order clk fails d customer_name requirements)
    = Returned result →
  result !! p = Some l → x ∈ l →
  fresh_in_pool x p (clk 1%nat - days 3)%Z d ∧
  ¬ sold_since x (clk 0%nat - days 30)%Z d.
Proof.
  intros Hans Hl Hx.
  destruct (process_order_origin _ _ _ _ _ _ _ _ Hans Hl)
    as (_ & r & d0 & _ & <- & Hq & Hpool & Hpre & _).
  apply sqlite_query_sublist in Hq.
  pose proof (elem_of_sublist _ _ _ Hx Hq) as Hc.
  apply elem_of_sqlite_candidates in Hc as [Hfresh Hunsold]. split.
  - by eapply fresh_in_pool_same.
  - by eapply not_sold_since_prefix.
Qed.

Lemma process_order_postgres_eligible server_now clk fails d customer_name
    requirements result p l x :
  answer (process_order_postgres server_now clk fails d customer_name
            requirements) = Returned result →
  result !! p = Some l → x ∈ l →
  fresh_in_pool x p (server_now - days 3)%Z d ∧
  ¬ sold_since x (server_now - days 30)%Z d.
Proof.
  intros Hans Hl Hx.
  destruct (process_order_postgres_origin _ _ _ _ _ _ _ _ _ Hans Hl)
    as (_ & r & d0 & _ & <- & Hq & Hpool & Hpre).
  apply pg_query_sublist in Hq.
  pose proof (elem_of_sublist _ _ _ Hx Hq) as Hc.
  apply elem_of_pg_candidates in Hc as [Hfresh Hunsold]. split.
  - by eapply fresh_in_pool_same.
  - by eapply not_sold_since_prefix.
Qed.

Lemma process_order_reserved clk fails d customer_name requirements result
    p l x :
  answer (process_order clk fails d customer_name requirements)
    = Returned result →
  result !! p = Some l → x ∈ l →
  ∃ k, SaleRow x customer_name (clk k)
         ∈ sales_history
             (stored (process_order clk fails d customer_name requirements)).
Proof.
  intros Hans Hl Hx.
  destruct (process_order_origin _ _ _ _ _ _ _ _ Hans Hl)
    as (_ & r & d0 & _ & _ & _ & _ & _ & Hrows). by apply Hrows.
Qed.

Lemma process_order_postgres_reserved server_now clk fails d customer_name
    requirements st p l x :
  order_loop (pg_query server_now) pg_report clk fails customer_name 0
    requirements
    (RunState d 0 ∅ []) = Done st →
  fails Commit = false →
  results st !! p = Some l → x ∈ l →
  answer (process_order_postgres server_now clk fails d customer_name
            requirements) = Returned (results st) ∧
  ∃ k, SaleRow x customer_name (clk k)
         ∈ sales_history
             (stored (process_order_postgres server_now clk fails d
                        customer_name requirements)).
Proof.
  intros Hloop Hc Hl Hx.
  rewrite (process_order_postgres_Done _ _ _ _ _ _ _ Hloop Hc). simpl.
  split; [done|].
  pose proof (order_loop_results_origin (pg_query server_now) pg_report clk
                fails customer_name 0 requirements (RunState d 0 ∅ []) p l)
    as Horigin.
  rewrite Hloop in Horigin. simpl in Horigin.
  destruct (Horigin Hl) as [?|(_ & r & st0 & _ & _ & _ & _ & _ & Hrows)];
    [done|].
  destruct (Hrows x Hx) as (k & _ & Hrow). by exists k.
Qed.
End returned.

(** An order never removes or rewrites a stored row: after it, on
    either path and whatever fails, the pool is the pool of before, the
    ledger of before is an initial segment of the ledger, and every row
    beyond it is a sale to the customer of the order, stamped with a
    reading of the clock of the order. *)
Theorem order_only_appends `{engine} (clk : nat → Z) (fails : db_call → bool)
    (d : database) (customer_name : string) (requirements : list requirement)
    (server_now : Z) :
  let one := process_order clk fails d customer_name requirements in
  let two := process_order_postgres server_now clk fails d customer_name
               requirements in
  raw_pool (stored one) = raw_pool d ∧
  sales_history d `prefix_of` sales_history (stored one) ∧
  (∀ s, s ∈ drop (length (sales_history d)) (sales_history (stored one)) →
        sold_to s = customer_name ∧ ∃ k, sold_at s = clk k) ∧
  raw_pool (stored two) = raw_pool d ∧
  sales_history d `prefix_of` sales_history (stored two) ∧
  (∀ s, s ∈ drop (length (sales_history d)) (sales_history (stored two)) →
        sold_to s = customer_name ∧ ∃ k, sold_at s = clk k).
Proof.
  intros one two.
  assert (∀ query report first_tick st,
            order_loop query report clk fails customer_name 0 requirements
              (RunState d first_tick ∅ []) = Done st →
            raw_pool (conn_db st) = raw_pool d ∧
            sales_history d `prefix_of` sales_history (conn_db st) ∧
            ∀ s, s ∈ drop (length (sales_history d)) (sales_history (conn_db st)) →
                 sold_to s = customer_name ∧ ∃ k, sold_at s = clk k) as Hdone.
  { intros query report first_tick st Hloop. split_and!.
    - apply (order_loop_pool _ _ _ _ _ _ _ _ _ Hloop).
    - apply (order_loop_ledger _ _ _ _ _ _ _ _ _ Hloop).
    - intros s Hs.
      destruct (order_loop_new_rows _ _ _ _ _ _ _ _ _ s Hloop Hs)
        as [? (k & _ & ?)]. eauto. }
  assert (∀ s, s ∈ drop (length (sales_history d)) (sales_history d) →
               sold_to s = customer_name ∧ ∃ k, sold_at s = clk k) as Hnone.
  { intros s. rewrite drop_all. by intros ?%elem_of_nil. }
  destruct (order_is_all_or_nothing clk fails d customer_name requirements
              server_now) as [Hone Htwo].
  fold one in Hone. fold two in Htwo.
  assert (raw_pool (stored one) = raw_pool d ∧
          sales_history d `prefix_of` sales_history (stored one) ∧
          ∀ s, s ∈ drop (length (sales_history d)) (sales_history (stored one)) →
               sold_to s = customer_name ∧ ∃ k, sold_at s = clk k) as H1.
  { destruct Hone as [->|(st & Hloop & ->)]; [done|by eapply Hdone]. }
  assert (raw_pool (stored two) = raw_pool d ∧
          sales_history d `prefix_of` sales_history (stored two) ∧
          ∀ s, s ∈ drop (length (sales_history d)) (sales_history (stored two)) →
               sold_to s = customer_name ∧ ∃ k, sold_at s = clk k) as H2.
  { destruct Htwo as [->|(st & Hloop & ->)]; [done|by eapply Hdone]. }
  destruct H1 as (? & ? & ?), H2 as (? & ? & ?). by split_and!.
Qed.

(** Every entry of the returned dictionary, on either path and whatever
    fails, is non-empty and belongs to a requirement of the order that
    names its provider; it has at most as many numbers as that
    requirement asks for when the quantity is not negative, and on the
    SQLite path it holds no number twice. *)
Theorem result_entries_shape `{engine} (clk : nat → Z) (fails : db_call → bool)
    (d : database) (customer_name : string) (requirements : list requirement)
    (server_now : Z) (result : gmap string (list string)) (p : string)
    (l : list string) :
  (answer (process_order clk fails d customer_name requirements)
     = Returned result →
   result !! p = Some l →
   l ≠ [] ∧ NoDup l ∧
   ∃ r, r ∈ requirements ∧ req_provider r = p ∧
        ((0 ≤ req_qty r)%Z → (Z.of_nat (length l) ≤ req_qty r)%Z)) ∧
  (answer (process_order_postgres server_now clk fails d customer_name
             requirements) = Returned result →
   result !! p = Some l →
   l ≠ [] ∧
   ∃ r, r ∈ requirements ∧ req_provider r = p ∧
        (0 ≤ req_qty r)%Z ∧ (Z.of_nat (length l) ≤ req_qty r)%Z).
Proof.
  split.
  - intros Hans Hl.
    destruct (process_order_origin _ _ _ _ _ _ _ _ Hans Hl)
      as (Hne & r & d0 & Hr & Hp & Hq & _).
    split_and!; [done|by eapply NoDup_sqlite_query|].
    exists r. split_and!; [done..|]. intros Hqty.
    unfold sqlite_query in Hq. case_decide; [|done]. injection Hq as <-.
    unfold sqlite_limit. rewrite decide_False by lia.
    rewrite length_take. lia.
  - intros Hans Hl.
    destruct (process_order_postgres_origin _ _ _ _ _ _ _ _ _ Hans Hl)
      as (Hne & r & d0 & Hr & Hp & Hq & _).
    split; [done|]. exists r. unfold pg_query in Hq.
    case_decide as Hqty; [|done]. injection Hq as <-.
    split_and!; [done..|lia|]. rewrite length_take. lia.
Qed.

Lemma result_entries_shape_witness :
  ["081200000001"; "081200000002"] ≠ [] ∧
  NoDup ["081200000001"; "081200000002"] ∧
  ∃ r, r ∈ [Req "tsel" 5; Req "isat" 1] ∧ req_provider r = "tsel" ∧
       ((0 ≤ req_qty r)%Z → (Z.of_nat 2 ≤ req_qty r)%Z).
Proof.
  apply (result_entries_shape (H:=storage_order) at_noon reliable small_pool
           "Anto" [Req "tsel" 5; Req "isat" 1] noon
           (<["isat" := ["085700000001"]]>
              (<["tsel" := ["081200000001"; "081200000002"]]> ∅))
           "tsel" ["081200000001"; "081200000002"]).
  - vm_compute. reflexivity.
  - vm_compute. reflexivity.
Defined.

(** Every number an order returns was, when the order began, a number
    of the entry's provider ingested within the freshness window and
    not sold within the reuse window; on either path, whatever fails. *)
Theorem returned_numbers_were_eligible `{engine} (clk : nat → Z)
    (fails : db_call → bool) (d : database) (customer_name : string)
    (requirements : list requirement) (server_now : Z)
    (result : gmap string (list string)) (p : string) (l : list string)
    (x : string) :
  (answer (process_order clk fails d customer_name requirements)
     = Returned result →
   result !! p = Some l → x ∈ l →
   fresh_in_pool x p (clk 1%nat - days 3)%Z d ∧
   ¬ sold_since x (clk 0%nat - days 30)%Z d) ∧
  (answer (process_order_postgres server_now clk fails d customer_name
             requirements) = Returned result →
   result !! p = Some l → x ∈ l →
   fresh_in_pool x p (server_now - days 3)%Z d ∧
   ¬ sold_since x (server_now - days 30)%Z d).
Proof.
  split.
  - apply process_order_eligible.
  - apply process_order_postgres_eligible.
Qed.

Lemma returned_numbers_were_eligible_witness :
  (fresh_in_pool "081200000002" "tsel" (noon - days 3) small_pool ∧
   ¬ sold_since "081200000002" (noon - days 30) small_pool) ∧
  (fresh_in_pool "085700000001" "isat" (noon - days 3) small_pool ∧
   ¬ sold_since "085700000001" (noon - days 30) small_pool).
Proof.
  split.
  - apply (returned_numbers_were_eligible (H:=storage_order) at_noon reliable
             small_pool "Anto" [Req "tsel" 5; Req "isat" 1] noon
             (<["isat" := ["085700000001"]]>
                (<["tsel" := ["081200000001"; "081200000002"]]> ∅))
             "tsel" ["081200000001"; "081200000002"] "081200000002").
    + vm_compute. reflexivity.
    + vm_compute. reflexivity.
    + apply list_elem_of_further, list_elem_of_here.
  - apply (returned_numbers_were_eligible (H:=storage_order) at_noon reliable
             small_pool "Anto" [Req "tsel" 5; Req "isat" 1] noon
             (<["isat" := ["085700000001"]]>
                (<["tsel" := ["081200000001"; "081200000002"]]> ∅))
             "isat" ["085700000001"] "085700000001").
    + vm_compute. reflexivity.
    + vm_compute. reflexivity.
    + apply list_elem_of_here.
Defined.

(** On the SQLite path, every number of the returned dictionary has a
    row for the customer in the stored ledger; on the PostgreSQL path
    this holds of an order whose loop and commit went through. *)
Theorem returned_numbers_are_reserved `{engine} (clk : nat → Z)
    (fails : db_call → bool) (d : database) (customer_name : string)
    (requirements : list requirement) (server_now : Z)
    (result : gmap string (list string)) (p : string) (l : list string)
    (x : string) :
  (answer (process_order clk fails d customer_name requirements)
     = Returned result →
   result !! p = Some l → x ∈ l →
   ∃ k, SaleRow x customer_name (clk k)
          ∈ sales_history
              (stored (process_order clk fails d customer_name requirements))) ∧
  (∀ st,
     order_loop (pg_query server_now) pg_report clk fails customer_name 0
       requirements
       (RunState d 0 ∅ []) = Done st →
     fails Commit = false →
     results st !! p = Some l → x ∈ l →
     answer (process_order_postgres server_now clk fails d customer_name
               requirements) = Returned (results st) ∧
     ∃ k, SaleRow x customer_name (clk k)
            ∈ sales_history
                (stored (process_order_postgres server_now clk fails d
                           customer_name requirements))).
Proof.
  split.
  - apply process_order_reserved.
  - intros st. apply process_order_postgres_reserved.
Qed.

Lemma returned_numbers_are_reserved_witness :
  (∃ k, SaleRow "081200000002" "Anto" (at_noon k)
          ∈ sales_history
              (stored (process_order (H:=storage_order) at_noon reliable
                         small_pool "Anto" [Req "tsel" 5; Req "isat" 1]))) ∧
  (∃ k, SaleRow "081200000002" "Anto" (at_noon k)
          ∈ sales_history
              (stored (process_order_postgres (H:=storage_order) noon at_noon
                         reliable small_pool "Anto"
                         [Req "tsel" 5; Req "isat" 1]))).
Proof.
  pose proof (returned_numbers_are_reserved (H:=storage_order) at_noon reliable
                small_pool "Anto" [Req "tsel" 5; Req "isat" 1] noon
                (<["isat" := ["085700000001"]]>
                   (<["tsel" := ["081200000001"; "081200000002"]]> ∅))
                "tsel" ["081200000001"; "081200000002"] "081200000002")
    as [Hs Hp].
  split.
  - apply Hs.
    + vm_compute. reflexivity.
    + vm_compute. reflexivity.
    + apply list_elem_of_further, list_elem_of_here.
  - refine (proj2 (Hp (RunState
                         (Database (raw_pool small_pool)
                            [SaleRow "081200000001" "Anto" noon;
                             SaleRow "081200000002" "Anto" noon;
                             SaleRow "085700000001" "Anto" noon])
                         3
                         (<["isat" := ["085700000001"]]>
                            (<["tsel" := ["081200000001"; "081200000002"]]> ∅))
                         [Shortage 2 5; Success 1]) _ _ _ _)).
    + vm_compute. reflexivity.
    + reflexivity.
    + vm_compute. reflexivity.
    + apply list_elem_of_further, list_elem_of_here.
Defined.

(** ** One order after another *)

(** Two orders run one after the other on the SQLite path, the second
    on what the first stored: when no sale of the first is older than
    the reuse cutoff of the second, no number returned by the first is
    returned by the second, whatever the two orders ask for. The same
    holds on the PostgreSQL path when the first order was committed. *)
Theorem next_order_gets_other_numbers `{engine} (clk1 clk2 : nat → Z)
    (fails1 fails2 : db_call → bool) (d : database)
    (customer1 customer2 : string) (requirements1 requirements2 : list requirement)
    (now1 now2 : Z) (result1 result2 : gmap string (list string))
    (p1 p2 : string) (l1 l2 : list string) (x : string) :
  (let one := process_order clk1 fails1 d customer1 requirements1 in
   let two := process_order clk2 fails2 (stored one) customer2 requirements2 in
   (∀ k, (cutoff_date clk2 ≤ clk1 k)%Z) →
   answer one = Returned result1 → answer two = Returned result2 →
   result1 !! p1 = Some l1 → result2 !! p2 = Some l2 →
   x ∈ l1 → x ∉ l2) ∧
  (let one := process_order_postgres now1 clk1 fails1 d customer1
                requirements1 in
   let two := process_order_postgres now2 clk2 fails2 (stored one) customer2
                requirements2 in
   (∀ k, (now2 - days 30 ≤ clk1 k)%Z) →
   (∃ st, order_loop (pg_query now1) pg_report clk1 fails1 customer1 0
     requirements1
            (RunState d 0 ∅ []) = Done st ∧
          fails1 Commit = false ∧ result1 = results st) →
   answer two = Returned result2 →
   result1 !! p1 = Some l1 → result2 !! p2 = Some l2 →
   x ∈ l1 → x ∉ l2).
Proof.
  split.
  - intros one two Hclk Hone Htwo Hl1 Hl2 Hx1 Hx2.
    destruct (process_order_reserved _ _ _ _ _ _ _ _ _ Hone Hl1 Hx1)
      as (k & Hrow).
    destruct (process_order_eligible _ _ _ _ _ _ _ _ _ Htwo Hl2 Hx2)
      as [_ Hunsold].
    apply Hunsold. exists (SaleRow x customer1 (clk1 k)).
    split_and!; [done..|]. apply Hclk.
  - intros one two Hclk (st & Hloop & Hc & ->) Htwo Hl1 Hl2 Hx1 Hx2.
    destruct (process_order_postgres_reserved _ _ _ _ _ _ _ _ _ _ Hloop Hc
                Hl1 Hx1) as (_ & k & Hrow).
    destruct (process_order_postgres_eligible _ _ _ _ _ _ _ _ _ _ Htwo Hl2
                Hx2) as [_ Hunsold].
    apply Hunsold. exists (SaleRow x customer1 (clk1 k)).
    split_and!; [done..|]. apply Hclk.
Qed.

(** Two orders for one [tsel] number each, against two fresh [tsel]
    numbers: the repeat order is given the other number. *)
Lemma next_order_gets_other_numbers_witness :
  ("081200000001" ∉ ["081200000002"]) ∧ ("081200000001" ∉ ["081200000002"]).
Proof.
  pose proof (next_order_gets_other_numbers (H:=storage_order)
                at_noon at_noon reliable reliable small_pool
                "Anto" "Anto_Repeat" [Req "tsel" 1] [Req "tsel" 1] noon noon
                {[ "tsel" := ["081200000001"] ]}
                {[ "tsel" := ["081200000002"] ]}
                "tsel" "tsel" ["081200000001"] ["081200000002"]
                "081200000001") as [Hs Hp].
  split.
  - apply Hs.
    + intros k. unfold cutoff_date, at_noon, days. lia.
    + vm_compute. reflexivity.
    + vm_compute. reflexivity.
    + vm_compute. reflexivity.
    + vm_compute. reflexivity.
    + apply list_elem_of_here.
  - apply Hp.
    + intros k. unfold at_noon, days. lia.
    + exists (RunState
                (Database (raw_pool small_pool)
                   [SaleRow "081200000001" "Anto" noon])
                1 {[ "tsel" := ["081200000001"] ]} [Success 1]).
      split_and!; [vm_compute; reflexivity|reflexivity|reflexivity].
    + vm_compute. reflexivity.
    + vm_compute. reflexivity.
    + vm_compute. reflexivity.
    + apply list_elem_of_here.
Defined.

(** A number that an order returns, on either path (on the SQLite path
    with a clock that does not run backwards between the two readings
    the windows are taken from), has a pool record of the provider it
    is returned for that is stamped more than 27 days after every sale
    of that number in the ledger the order started from: with the
    windows of 3 and 30 days, a number is sold again only on the
    strength of a later ingestion. *)
Theorem resale_needs_later_ingestion `{engine} (clk : nat → Z)
    (fails : db_call → bool) (d : database) (customer_name : string)
    (requirements : list requirement) (server_now : Z)
    (result : gmap string (list string)) (p : string) (l : list string)
    (x : string) :
  ((clk 0%nat ≤ clk 1%nat)%Z →
   answer (process_order clk fails d customer_name requirements)
     = Returned result →
   result !! p = Some l → x ∈ l →
   ∃ r, r ∈ raw_pool d ∧ phone_number r = x ∧ provider r = p ∧
        ∀ s, s ∈ sales_history d → sold_phone s = x →
             (sold_at s + days 27 < imported_at r)%Z) ∧
  (answer (process_order_postgres server_now clk fails d customer_name
             requirements) = Returned result →
   result !! p = Some l → x ∈ l →
   ∃ r, r ∈ raw_pool d ∧ phone_number r = x ∧ provider r = p ∧
        ∀ s, s ∈ sales_history d → sold_phone s = x →
             (sold_at s + days 27 < imported_at r)%Z).
Proof.
  split.
  - intros Hclk Hans Hl Hx.
    destruct (process_order_eligible _ _ _ _ _ _ _ _ _ Hans Hl Hx)
      as [(r & Hr & Hphone & Hprov & Hfresh) Hunsold].
    exists r. split_and!; [done..|]. intros s Hs Hsx.
    destruct (decide (clk 0%nat - days 30 ≤ sold_at s)%Z) as [Hin|Hout].
    + destruct Hunsold. by exists s.
    + unfold days in *. lia.
  - intros Hans Hl Hx.
    destruct (process_order_postgres_eligible _ _ _ _ _ _ _ _ _ _ Hans Hl Hx)
      as [(r & Hr & Hphone & Hprov & Hfresh) Hunsold].
    exists r. split_and!; [done..|]. intros s Hs Hsx.
    destruct (decide (server_now - days 30 ≤ sold_at s)%Z) as [Hin|Hout].
    + destruct Hunsold. by exists s.
    + unfold days in *. lia.
Qed.

(** The number sold at noon is ingested again 31 days later and sold
    again the day after, on either path: the new pool record is more
    than 27 days younger than the sale. *)
Lemma resale_needs_later_ingestion_witness :
  let later := (noon + days 32)%Z in
  let d2 := ingest_file "b.csv" [line "081200000001" (noon + days 31)]
              (stored (process_order (H:=storage_order) at_noon reliable
                         one_tsel "Anto" [Req "tsel" 1])) in
  (∃ r, r ∈ raw_pool d2 ∧ phone_number r = "081200000001" ∧
        provider r = "tsel" ∧
        ∀ s, s ∈ sales_history d2 → sold_phone s = "081200000001" →
             (sold_at s + days 27 < imported_at r)%Z) ∧
  (∃ r, r ∈ raw_pool d2 ∧ phone_number r = "081200000001" ∧
        provider r = "tsel" ∧
        ∀ s, s ∈ sales_history d2 → sold_phone s = "081200000001" →
             (sold_at s + days 27 < imported_at r)%Z).
Proof.
  intros later d2.
  pose proof (resale_needs_later_ingestion (H:=storage_order)
                (λ _, later) reliable d2 "Budi" [Req "tsel" 1] later
                {[ "tsel" := ["081200000001"] ]} "tsel" ["081200000001"]
                "081200000001") as [Hs Hp].
  split.
  - apply Hs.
    + simpl. lia.
    + vm_compute. reflexivity.
    + vm_compute. reflexivity.
    + apply list_elem_of_here.
  - apply Hp.
    + vm_compute. reflexivity.
    + vm_compute. reflexivity.
    + apply list_elem_of_here.
Defined.

(** ** Orders on reliable storage *)

(** On storage that does not fail, an order on the SQLite path returns,
    with one printed line per requirement, when every quantity fits a
    signed 64-bit integer; when some quantity does not, binding it
    raises, the caller gets the exception and nothing is stored. On the
    PostgreSQL path the order returns its full result when every
    quantity is between 0 and the largest [bigint]; when some quantity
    is not, the whole order is rolled back, whatever the requirements
    before it reserved. *)
Theorem orders_on_reliable_storage `{engine} (clk : nat → Z) (d : database)
    (customer_name : string) (requirements : list requirement)
    (server_now : Z) :
  (Forall (λ r, fits_int64 (req_qty r)) requirements →
   ∃ st,
     order_loop (sqlite_query (data_freshness_date clk) (cutoff_date clk))
       sqlite_report clk reliable customer_name 0 requirements
       (RunState d 2 ∅ []) = Done st ∧
     process_order clk reliable d customer_name requirements
     = OrderEnd (Returned (results st)) (conn_db st) (printed st) ∧
     length (printed st) = length requirements) ∧
  (Exists (λ r, ¬ fits_int64 (req_qty r)) requirements →
   answer (process_order clk reliable d customer_name requirements) = Raised ∧
   stored (process_order clk reliable d customer_name requirements) = d) ∧
  (Forall (λ r, (0 ≤ req_qty r ≤ int64_max)%Z) requirements →
   ∃ st,
     order_loop (pg_query server_now) pg_report clk reliable customer_name 0
       requirements (RunState d 0 ∅ []) = Done st ∧
     process_order_postgres server_now clk reliable d customer_name requirements
     = OrderEnd (Returned (results st)) (conn_db st) (printed st) ∧
     length (printed st) = length requirements) ∧
  (Exists (λ r, ¬ (0 ≤ req_qty r ≤ int64_max)%Z) requirements →
   stored (process_order_postgres server_now clk reliable d customer_name
             requirements) = d).
Proof.
  split_and!.
  - intros Hall.
    destruct (sqlite_loop_completes sqlite_report clk customer_name
                (data_freshness_date clk) (cutoff_date clk) 0 requirements
                (RunState d 2 ∅ []) Hall) as [st Hloop].
    exists st. split_and!; [done| |].
    + by apply process_order_Done.
    + by rewrite (order_loop_printed _ _ _ _ _ _ _ _ _ Hloop).
  - intros Hsome.
    destruct (sqlite_loop_raises sqlite_report clk customer_name
                (data_freshness_date clk) (cutoff_date clk) 0 requirements
                (RunState d 2 ∅ []) Hsome) as [st Hloop].
    unfold process_order. by rewrite Hloop.
  - intros Hall.
    destruct (pg_loop_completes pg_report clk customer_name server_now 0
                requirements (RunState d 0 ∅ []) Hall) as [st Hloop].
    exists st. split_and!; [done| |].
    + by apply process_order_postgres_Done.
    + by rewrite (order_loop_printed _ _ _ _ _ _ _ _ _ Hloop).
  - intros Hsome.
    destruct (pg_loop_raises pg_report clk customer_name server_now 0
                requirements (RunState d 0 ∅ []) Hsome) as [st Hloop].
    unfold process_order_postgres. by rewrite Hloop.
Qed.

(** Orders for one [tsel] number and then for no, for [-1] or for
    [2^63] [isat] numbers. *)
Lemma orders_on_reliable_storage_witness :
  (∃ st,
     process_order (H:=storage_order) at_noon reliable small_pool "Anto"
       [Req "tsel" 1; Req "isat" (-1)]
     = OrderEnd (Returned (results st)) (conn_db st) (printed st) ∧
     length (printed st) = 2) ∧
  (answer (process_order (H:=storage_order) at_noon reliable small_pool "Anto"
             [Req "tsel" 1; Req "isat" 9223372036854775808]) = Raised ∧
   stored (process_order (H:=storage_order) at_noon reliable small_pool "Anto"
             [Req "tsel" 1; Req "isat" 9223372036854775808]) = small_pool) ∧
  (∃ st,
     process_order_postgres (H:=storage_order) noon at_noon reliable small_pool
       "Anto" [Req "tsel" 1; Req "isat" 0]
     = OrderEnd (Returned (results st)) (conn_db st) (printed st) ∧
     length (printed st) = 2) ∧
  stored (process_order_postgres (H:=storage_order) noon at_noon reliable
            small_pool "Anto" [Req "tsel" 1; Req "isat" (-1)]) = small_pool.
Proof.
  split; [|split; [|split]].
  - destruct (orders_on_reliable_storage (H:=storage_order) at_noon small_pool
                "Anto" [Req "tsel" 1; Req "isat" (-1)] noon)
      as (Hrun & _).
    destruct Hrun as (st & _ & Hrun & Hlen).
    + repeat constructor; vm_compute; discriminate.
    + exists st. split; [exact Hrun|exact Hlen].
  - destruct (orders_on_reliable_storage (H:=storage_order) at_noon small_pool
                "Anto" [Req "tsel" 1; Req "isat" 9223372036854775808] noon)
      as (_ & Hraise & _).
    apply Hraise, Exists_cons_tl, Exists_cons_hd.
    intros [_ Hmax]. vm_compute in Hmax. by apply Hmax.
  - destruct (orders_on_reliable_storage (H:=storage_order) at_noon small_pool
                "Anto" [Req "tsel" 1; Req "isat" 0] noon)
      as (_ & _ & Hrun & _).
    destruct Hrun as (st & _ & Hrun & Hlen).
    + repeat constructor; vm_compute; discriminate.
    + exists st. split; [exact Hrun|exact Hlen].
  - destruct (orders_on_reliable_storage (H:=storage_order) at_noon small_pool
                "Anto" [Req "tsel" 1; Req "isat" (-1)] noon)
      as (_ & _ & _ & Hback).
    apply Hback, Exists_cons_tl, Exists_cons_hd.
    intros [Hmin _]. vm_compute in Hmin. by apply Hmin.
Defined.

(** With a negative quantity that fits a signed 64-bit integer, the
    SQLite path hands the customer every candidate of the provider and
    reports success: [LIMIT] with a negative bound does not limit. The
    result maps the provider to all the candidates, and has no entry
    when there is none. *)
Theorem sqlite_negative_quantity_takes_all `{engine} (clk : nat → Z)
    (d : database) (customer_name wanted : string) (qty : Z) :
  (int64_min ≤ qty < 0)%Z →
  let all := sqlite_candidates wanted (data_freshness_date clk)
               (cutoff_date clk) d in
  process_order clk reliable d customer_name [Req wanted qty] =
  OrderEnd
    (Returned match all with [] => ∅ | _ :: _ => {[ wanted := all ]} end)
    (Database (raw_pool d)
       (sales_history d ++ sales_records clk 2 customer_name all))
    [Success (length all)].
Proof.
  intros Hqty all.
  assert (sqlite_query (data_freshness_date clk) (cutoff_date clk) d
            (Req wanted qty) = Some all) as Hq.
  { rewrite sqlite_query_fits by (unfold fits_int64, int64_max; simpl; lia).
    unfold sqlite_limit. simpl. by rewrite decide_True by lia. }
  assert (sqlite_report all qty = Success (length all)) as Hline.
  { unfold sqlite_report. by rewrite decide_False by lia. }
  destruct all as [|x rest] eqn:Hall.
  - unfold process_order. cbn [order_loop]. unfold fulfil.
    cbn [reliable conn_db]. rewrite Hq. cbn [req_qty]. rewrite Hline.
    destruct d. simpl. by rewrite app_nil_r.
  - rewrite (process_order_single clk d customer_name _ _ Hq) by done.
    cbn [req_provider req_qty]. by rewrite Hline.
Qed.

(** An order for [-1] numbers of [tsel] against two fresh [tsel]
    numbers is given both. *)
Lemma sqlite_negative_quantity_takes_all_witness :
  process_order (H:=storage_order) at_noon reliable small_pool "Anto"
    [Req "tsel" (-1)] =
  OrderEnd (Returned {[ "tsel" := ["081200000001"; "081200000002"] ]})
    (Database (raw_pool small_pool)
       [SaleRow "081200000001" "Anto" noon; SaleRow "081200000002" "Anto" noon])
    [Success 2].
Proof.
  apply (sqlite_negative_quantity_takes_all (H:=storage_order) at_noon
           small_pool "Anto" "tsel" (-1)).
  vm_compute. split; [discriminate|reflexivity].
Defined.

(** ** The two variants side by side *)

Section variants.
Context `{engine}.

Lemma remove_dups_NoDup (l : list string) : NoDup l → remove_dups l = l.
Proof.
  induction 1 as [|x l Hx _ IH]; simpl; [done|].
  case_decide; [done|]. by rewrite IH.
Qed.

Lemma anti_join_NoDup wanted fresh cutoff d :
  NoDup (phone_number <$> raw_pool d) →
  NoDup (anti_join wanted fresh cutoff d).
Proof.
  intros Hnd. eapply sublist_NoDup; [exact Hnd|].
  unfold anti_join. apply fmap_sublist, sublist_filter.
Qed.

End variants.

(** Without duplicate numbers in the pool, with a quantity that
    PostgreSQL accepts as a limit and with two engines that put rows in
    the same order, the two queries return the same rows. *)
Lemma queries_agree (E1 E2 : engine) now d r :
  (∀ rows, emit (engine:=E1) rows = emit (engine:=E2) rows) →
  NoDup (phone_number <$> raw_pool d) →
  (0 ≤ req_qty r ≤ int64_max)%Z →
  sqlite_query (H:=E1) (now - days 3) (now - days 30) d r =
  pg_query (H:=E2) now d r.
Proof.
  intros Hsame Hnd Hqty.
  rewrite sqlite_query_fits by (unfold fits_int64, int64_min; lia).
  rewrite pg_query_fits by done. unfold sqlite_limit.
  rewrite decide_False by lia. unfold sqlite_candidates, pg_candidates.
  by rewrite Hsame, remove_dups_NoDup by by apply anti_join_NoDup.
Qed.

Lemma sqlite_report_pg_report found qty :
  same_line (sqlite_report found qty) (pg_report found qty).
Proof. unfold sqlite_report, pg_report. by case_decide. Qed.

(** Two loops whose queries agree on every database with the pool of
    the start, and whose clocks agree from the current reading on, leave
    in the same way with the same tables and results, and with lines
    that say the same. *)
Lemma order_loop_sim q1 q2 clk1 clk2 fails customer_name i reqs st1 st2 :
  (∀ d' r, raw_pool d' = raw_pool (conn_db st1) → r ∈ reqs →
           q1 d' r = q2 d' r) →
  conn_db st1 = conn_db st2 →
  results st1 = results st2 →
  Forall2 same_line (printed st1) (printed st2) →
  (∀ j, clk1 (ticks st1 + j) = clk2 (ticks st2 + j)) →
  match order_loop q1 sqlite_report clk1 fails customer_name i reqs st1,
        order_loop q2 pg_report clk2 fails customer_name i reqs st2 with
  | Done a, Done b | Exn a, Exn b =>
      conn_db a = conn_db b ∧ results a = results b ∧
      Forall2 same_line (printed a) (printed b)
  | _, _ => False
  end.
Proof.
  revert i st1 st2. induction reqs as [|r reqs IH];
    intros i st1 st2 Hq Hdb Hres Hout Hclk; simpl; [done|].
  unfold fulfil. destruct (fails (ExecSelect i)); [done|].
  rewrite <-Hdb, <-(Hq (conn_db st1) r eq_refl (list_elem_of_here _ _)).
  destruct (q1 (conn_db st1) r) as [[|x found]|]; [| |done].
  - apply IH; simpl; [|done..| |done].
    + intros d' r' Hpool Hr'. apply Hq; [done|by apply list_elem_of_further].
    + apply Forall2_app; [done|].
      repeat constructor. apply sqlite_report_pg_report.
  - assert (Forall2 same_line
              (printed st1 ++ [sqlite_report (x :: found) (req_qty r)])
              (printed st2 ++ [pg_report (x :: found) (req_qty r)])) as Hout'.
    { apply Forall2_app; [done|].
      repeat constructor. apply sqlite_report_pg_report. }
    destruct (fails (ExecInsert i)); [by simpl|].
    assert (sales_records clk1 (ticks st1) customer_name (x :: found) =
            sales_records clk2 (ticks st2) customer_name (x :: found)) as Hrows.
    { unfold sales_records. apply imap_ext. intros j y _. simpl.
      by rewrite Hclk. }
    apply IH.
    + intros d' r' Hpool Hr'. apply Hq; [done|by apply list_elem_of_further].
    + unfold record_sale, print. cbn [conn_db ticks]. by rewrite Hrows, Hdb.
    + simpl. by rewrite Hres.
    + done.
    + intros j. unfold record_sale, print. cbn [ticks].
      rewrite <-!(assoc_L Nat.add). apply Hclk.
Qed.

(** When the pool holds no number twice, every quantity is between 0
    and the largest [bigint], and the two databases put rows in the
    same order, the PostgreSQL variant, run at the time the SQLite
    variant reads for its two windows and with the same clock for its
    sales, stores the same tables as the SQLite variant, whatever
    fails, and prints lines that say the same (the warning in its own
    form); and whatever the SQLite variant returns, it returns too. *)
Theorem variants_agree_without_duplicates (E1 E2 : engine) (clk : nat → Z)
    (fails : db_call → bool) (d : database) (customer_name : string)
    (requirements : list requirement) :
  (∀ rows, emit (engine:=E1) rows = emit (engine:=E2) rows) →
  NoDup (phone_number <$> raw_pool d) →
  Forall (λ r, (0 ≤ req_qty r ≤ int64_max)%Z) requirements →
  clk 1 = clk 0 →
  let one := process_order (H:=E1) clk fails d customer_name requirements in
  let two := process_order_postgres (H:=E2) (clk 0) (λ j, clk (2 + j)) fails d
               customer_name requirements in
  stored two = stored one ∧
  Forall2 same_line (stdout one) (stdout two) ∧
  ∀ result, answer one = Returned result → answer two = Returned result.
Proof.
  intros Hsame Hnd Hqty Hclk one two.
  pose proof (order_loop_sim
                (sqlite_query (H:=E1) (data_freshness_date clk)
                   (cutoff_date clk))
                (pg_query (H:=E2) (clk 0)) clk (λ j, clk (2 + j)) fails
                customer_name 0 requirements (RunState d 2 ∅ [])
                (RunState d 0 ∅ [])) as Hsim.
  assert (∀ d' r, raw_pool d' = raw_pool d → r ∈ requirements →
                  sqlite_query (H:=E1) (data_freshness_date clk)
                    (cutoff_date clk) d' r
                  = pg_query (H:=E2) (clk 0) d' r) as Hq.
  { intros d' r Hpool Hr. unfold data_freshness_date, cutoff_date.
    rewrite Hclk. apply queries_agree.
    - done.
    - by rewrite Hpool.
    - by apply (proj1 (Forall_forall _ _) Hqty). }
  specialize (Hsim Hq eq_refl eq_refl ltac:(constructor) (λ j, eq_refl)).
  unfold one, two, process_order, process_order_postgres.
  destruct (order_loop (sqlite_query _ _) sqlite_report _ _ _ _ _ _) as [a|a],
           (order_loop (pg_query _) pg_report _ _ _ _ _ _) as [b|b]; [|done..|].
  - destruct Hsim as (Hdb & Hres & Hout).
    destruct (fails Commit); simpl; rewrite ?Hdb, ?Hres;
      by split_and!.
  - destruct Hsim as (Hdb & Hres & Hout). by simpl.
Qed.

(** An order for one [tsel] and one [isat] number, on storage that
    fails at the second query and on storage that does not. *)
Lemma variants_agree_without_duplicates_witness :
  stored (process_order_postgres (H:=storage_order) noon (λ j, at_noon (2 + j))
            second_select_fails small_pool "Anto" [Req "tsel" 1; Req "isat" 1])
  = stored (process_order (H:=storage_order) at_noon second_select_fails
              small_pool "Anto" [Req "tsel" 1; Req "isat" 1]) ∧
  answer (process_order_postgres (H:=storage_order) noon (λ j, at_noon (2 + j))
            reliable small_pool "Anto" [Req "tsel" 1; Req "isat" 1])
  = Returned (<["isat" := ["085700000001"]]> {[ "tsel" := ["081200000001"] ]}).
Proof.
  split.
  - apply (variants_agree_without_duplicates storage_order storage_order
             at_noon second_select_fails small_pool "Anto"
             [Req "tsel" 1; Req "isat" 1]).
    + done.
    + apply (bool_decide_unpack (NoDup (phone_number <$> raw_pool small_pool))).
      vm_compute. exact I.
    + repeat constructor; vm_compute; discriminate.
    + reflexivity.
  - apply (variants_agree_without_duplicates storage_order storage_order
             at_noon reliable small_pool "Anto" [Req "tsel" 1; Req "isat" 1]).
    + done.
    + apply (bool_decide_unpack (NoDup (phone_number <$> raw_pool small_pool))).
      vm_compute. exact I.
    + repeat constructor; vm_compute; discriminate.
    + reflexivity.
    + vm_compute. reflexivity.
Defined.

(** ** Ingestion *)

Lemma detect_provider_prefix_for prov rest :
  detect_provider (prefix_for prov +:+ rest) = ingested_as prov.
Proof.
  unfold prefix_for, ingested_as.
  destruct rest; repeat case_decide; reflexivity.
Qed.

(** A generated file, once ingested, adds one pool row per draw, in
    order, and none of them under the provider ['three'] or ['other']:
    a number drawn for ['tsel'] or ['isat'] is ingested under that
    provider, a number drawn for any other provider under ['xl']. *)
Theorem generated_numbers_are_ingested_as (draws : list draw)
    (date_str : option Z) (now : Z) (filename : string) (d : database) :
  let after := ingest_file filename (generate_dummy_file draws date_str now) d in
  raw_pool after =
  raw_pool d ++
  ((λ w, PoolRow (prefix_for (drawn_provider w) +:+ pretty (drawn_number w))
           (ingested_as (drawn_provider w)) (drawn_url w)
           (default now date_str) filename) <$> draws) ∧
  sales_history after = sales_history d ∧
  Forall (λ r, provider r ∈ ["tsel"; "isat"; "xl"])
    (drop (length (raw_pool d)) (raw_pool after)).
Proof.
  intros after.
  assert (raw_pool after =
          raw_pool d ++
          ((λ w, PoolRow (prefix_for (drawn_provider w) +:+ pretty (drawn_number w))
                   (ingested_as (drawn_provider w)) (drawn_url w)
                   (default now date_str) filename) <$> draws)) as Hrows.
  { unfold after, ingest_file, generate_dummy_file. simpl. f_equal.
    rewrite <-list_fmap_compose. apply list_fmap_ext. intros _ w _. simpl.
    by rewrite detect_provider_prefix_for. }
  split_and!; [done..|].
  rewrite Hrows, drop_app_length. apply Forall_fmap, Forall_true.
  intros w. simpl. unfold ingested_as. repeat case_decide; set_solver.
Qed.

(** Ingesting a file in two chunks gives the pool that ingesting it
    in one piece gives; the rows already there stay, in place, and the
    ledger is not touched. *)
Theorem ingest_in_chunks (filename : string)
    (chunk1 chunk2 : list (string * string * Z)) (d : database) :
  ingest_file filename (chunk1 ++ chunk2) d =
  ingest_file filename chunk2 (ingest_file filename chunk1 d) ∧
  raw_pool d `prefix_of` raw_pool (ingest_file filename chunk1 d) ∧
  length (raw_pool (ingest_file filename chunk1 d)) =
  length (raw_pool d) + length chunk1 ∧
  sales_history (ingest_file filename chunk1 d) = sales_history d.
Proof.
  unfold ingest_file. simpl. split_and!.
  - by rewrite fmap_app, (assoc_L (++)).
  - by apply prefix_app_r.
  - by rewrite length_app, length_fmap.
  - done.
Qed.

Section ingest_candidates.
Context `{engine}.

Lemma eligible_after_ingest x wanted fresh cutoff filename lines d :
  eligible x wanted fresh cutoff (ingest_file filename lines d) ↔
  eligible x wanted fresh cutoff d ∨
  ((∃ url at_, (x, url, at_) ∈ lines ∧ detect_provider x = wanted ∧
               (fresh ≤ at_)%Z) ∧
   ¬ sold_since x cutoff d).
Proof.
  unfold eligible, fresh_in_pool, sold_since, ingest_file. simpl. split.
  - intros [(r & [Hr|Hr]%elem_of_app & Hx & Hp & Ht) Hunsold].
    + left. eauto 10.
    + right. split; [|done].
      apply list_elem_of_fmap in Hr as ([[phone url] at_] & -> & Hl).
      simpl in *. subst. eauto.
  - intros [[(r & Hr & Hx & Hp & Ht) Hunsold]|
            [(url & at_ & Hl & Hp & Ht) Hunsold]].
    + split; [|done]. exists r. rewrite elem_of_app. eauto.
    + split; [|done].
      exists (PoolRow x (detect_provider x) url at_ filename).
      split_and!; [|done..]. apply elem_of_app. right.
      apply list_elem_of_fmap. by exists (x, url, at_).
Qed.
End ingest_candidates.

(** After an ingestion the candidates of a provider, in both variants,
    are those of before together with the ingested numbers that carry
    the prefix of the provider, are stamped within the freshness window
    and are not sold within the reuse window: ingestion never takes a
    candidate away. *)
Theorem candidates_after_ingestion `{engine} (x wanted : string)
    (fresh cutoff server_now : Z) (filename : string)
    (lines : list (string * string * Z)) (d : database) :
  (x ∈ sqlite_candidates wanted fresh cutoff (ingest_file filename lines d) ↔
   x ∈ sqlite_candidates wanted fresh cutoff d ∨
   ((∃ url at_, (x, url, at_) ∈ lines ∧ detect_provider x = wanted ∧
                (fresh ≤ at_)%Z) ∧
    ¬ sold_since x cutoff d)) ∧
  (x ∈ pg_candidates wanted server_now (ingest_file filename lines d) ↔
   x ∈ pg_candidates wanted server_now d ∨
   ((∃ url at_, (x, url, at_) ∈ lines ∧ detect_provider x = wanted ∧
                (server_now - days 3 ≤ at_)%Z) ∧
    ¬ sold_since x (server_now - days 30) d)).
Proof.
  split.
  - rewrite !elem_of_sqlite_candidates. apply eligible_after_ingest.
  - rewrite !elem_of_pg_candidates. apply eligible_after_ingest.
Qed.

(** ** More on partitions *)

Lemma add_days_Some d n day :
  add_days d n = Some day → day = (d + n)%Z ∧ (1 ≤ day ≤ max_ordinal)%Z.
Proof. unfold add_days. case_decide; [|done]. by intros [= <-]. Qed.

Lemma ensure_day_shape base_date i st st' :
  ensure_day base_date i st = Some st' →
  st' = st ∨
  (st'.1 = st.1 ++ [day_partition (base_date + i)] ∧
   st'.2 = st.2 ++ [part_name (base_date + i)] ∧
   "raw_pool" ∈ rel_name <$> st.1 ∧
   Forall (λ rel, ¬ overlaps (base_date + i) (base_date + i + 1) rel) st.1).
Proof.
  unfold ensure_day.
  destruct (add_days base_date i) as [day_start|] eqn:Hs; [simpl|done].
  destruct (add_days day_start 1) as [day_end|] eqn:He; [simpl|done].
  apply add_days_Some in Hs as [-> _]. apply add_days_Some in He as [-> _].
  destruct (to_regclass _ _); [intros [= <-]; by left|].
  unfold create_partition. case_decide as Hok; [simpl|done].
  intros [= <-]. right. by destruct Hok as (? & _ & ?).
Qed.

(** What a run that did not raise leaves: the catalog it found,
    followed by the partitions of some of the days of the range, in
    the order of the range, and their names as the names created. *)
Lemma ensure_days_shape base_date range st st' :
  ensure_days base_date range st = Some st' →
  ∃ days,
    days `sublist_of` ((λ i, base_date + i)%Z <$> range) ∧
    st'.1 = st.1 ++ (day_partition <$> days) ∧
    st'.2 = st.2 ++ (part_name <$> days).
Proof.
  revert st. induction range as [|i range IH]; intros st; simpl.
  - intros [= <-]. exists []. by rewrite !app_nil_r.
  - destruct (ensure_day base_date i st) as [st1|] eqn:H1; [simpl|done].
    intros (days & Hsub & Hcat & Hmade)%IH.
    apply ensure_day_shape in H1 as [->|(Hcat1 & Hmade1 & _)].
    + exists days. split_and!; [by apply sublist_cons|done..].
    + exists ((base_date + i)%Z :: days). split_and!.
      * by apply sublist_skip.
      * rewrite Hcat, Hcat1. simpl. by rewrite <-(assoc_L (++)).
      * rewrite Hmade, Hmade1. simpl. by rewrite <-(assoc_L (++)).
Qed.

Lemma created_partitions_are_days_shape (today : Z) (catalog : list relation) :
  ∃ days,
    days `sublist_of` [today; today + 1; today + 2; today + 3]%Z ∧
    catalog_after (init_db_partitions today catalog) =
    catalog ++ (day_partition <$> days) ∧
    created (init_db_partitions today catalog) = part_name <$> days.
Proof.
  unfold init_db_partitions.
  destruct (ensure_days today [0; 1; 2; 3]%Z (catalog, []))
    as [[catalog' names]|] eqn:Hrun.
  - apply ensure_days_shape in Hrun as (days & Hsub & Hcat & Hmade).
    exists days. simpl in *. split_and!; [|done..].
    by rewrite Z.add_0_r in Hsub.
  - exists []. simpl. split_and!; [apply sublist_nil_l|by rewrite app_nil_r|done].
Qed.

(** Whatever the catalog and the day, the call leaves the relations it
    found in place and adds, after them, the partitions of some of the
    four days from [today] on, each spanning its one day and named
    after it; the names it reports are the names of these. *)
Theorem created_partitions_are_days (today : Z) (catalog : list relation) :
  ∃ days,
    days `sublist_of` [today; today + 1; today + 2; today + 3]%Z ∧
    catalog_after (init_db_partitions today catalog) =
    catalog ++ (day_partition <$> days) ∧
    created (init_db_partitions today catalog) = part_name <$> days.
Proof. apply created_partitions_are_days_shape. Qed.





Lemma ensure_days_stuck base_date range i :
  (∀ st, ensure_day base_date i st = None) →
  i ∈ range →
  ∀ st, ensure_days base_date range st = None.
Proof.
  intros Hstuck Hi. induction range as [|j range IH]; intros st.
  - by apply elem_of_nil in Hi.
  - simpl. apply elem_of_cons in Hi as [<-|Hi].
    + by rewrite Hstuck.
    + destruct (ensure_day base_date j st); [by apply IH|done].
Qed.

Lemma ensure_days_orphan base_date range st st' :
  "raw_pool" ∉ rel_name <$> st.1 →
  ensure_days base_date range st = Some st' → st' = st.
Proof.
  intros Horphan. revert st'. induction range as [|i range IH]; intros st'.
  - by intros [= <-].
  - simpl. destruct (ensure_day base_date i st) as [st1|] eqn:H1; [simpl|done].
    apply ensure_day_shape in H1 as [->|(_ & _ & Hparent & _)]; [apply IH|done].
Qed.

(** The call creates nothing and leaves the catalog as it was when the
    parent table [raw_pool] is missing, and when the day after the last
    of the four days is beyond the last date there is: the exception is
    caught and everything created before it is rolled back. *)
Theorem partitions_need_parent_and_room (today : Z) (catalog : list relation) :
  ("raw_pool" ∉ rel_name <$> catalog) ∨ (max_ordinal - 4 < today)%Z →
  init_db_partitions today catalog = PartitionsEnd catalog [].
Proof.
  unfold init_db_partitions. intros [Horphan|Hlate].
  - destruct (ensure_days today [0; 1; 2; 3]%Z (catalog, []))
      as [[catalog' names]|] eqn:Hrun; [|done].
    by apply ensure_days_orphan in Hrun as [= -> ->].
  - rewrite (ensure_days_stuck today [0; 1; 2; 3]%Z 3%Z); [done| |set_solver].
    intros st. unfold ensure_day, add_days.
    case_decide; [simpl|done]. by rewrite decide_False by lia.
Qed.

Lemma partitions_need_parent_and_room_witness :
  init_db_partitions 739586 [] = PartitionsEnd [] [] ∧
  init_db_partitions (max_ordinal - 3) bare_catalog =
  PartitionsEnd bare_catalog [].
Proof.
  split.
  - apply (partitions_need_parent_and_room 739586 []).
    left. apply not_elem_of_nil.
  - apply (partitions_need_parent_and_room (max_ordinal - 3) bare_catalog).
    right. lia.
Defined.

Lemma sublist_of_last (a b c e : Z) (days : list Z) :
  days `sublist_of` [a; b; c; e] →
  a ∉ days → b ∉ days → c ∉ days →
  days `sublist_of` [e].
Proof.
  intros Hsub Ha Hb Hc.
  apply sublist_cons_r in Hsub as [Hsub|(l & -> & _)];
    [|destruct Ha; apply list_elem_of_here].
  apply sublist_cons_r in Hsub as [Hsub|(l & -> & _)];
    [|destruct Hb; apply list_elem_of_here].
  apply sublist_cons_r in Hsub as [Hsub|(l & -> & _)];
    [|destruct Hc; apply list_elem_of_here].
  done.
Qed.

(** A call on a day whose partition and those of the next two days are
    in the catalog creates at most one partition, that of the third day
    after it: the daily job adds the one day that is new. *)
Theorem daily_call_adds_one_day (today : Z) (catalog : list relation) :
  part_name today ∈ rel_name <$> catalog →
  part_name (today + 1) ∈ rel_name <$> catalog →
  part_name (today + 2) ∈ rel_name <$> catalog →
  ∃ days,
    days `sublist_of` [today + 3]%Z ∧
    catalog_after (init_db_partitions today catalog) =
    catalog ++ (day_partition <$> days) ∧
    created (init_db_partitions today catalog) = part_name <$> days.
Proof.
  intros H0 H1 H2.
  assert (∀ day, part_name day ∈ rel_name <$> catalog →
                 part_name day ∉ created (init_db_partitions today catalog))
    as Hkept.
  { intros day Hin Hmade. unfold init_db_partitions in Hmade.
    destruct (ensure_days today [0; 1; 2; 3]%Z (catalog, []))
      as [[catalog' names]|] eqn:Hrun; simpl in Hmade.
    - by destruct (ensure_days_created _ _ _ _ _ Hrun Hmade).
    - by apply elem_of_nil in Hmade. }
  destruct (created_partitions_are_days_shape today catalog)
    as (days & Hsub & Hcat & Hmade).
  exists days. split_and!; [|done..].
  apply (sublist_of_last today (today + 1) (today + 2)); [done|..].
  - intros Hin. apply (Hkept today H0). rewrite Hmade.
    by apply list_elem_of_fmap_2.
  - intros Hin. apply (Hkept (today + 1)%Z H1). rewrite Hmade.
    by apply list_elem_of_fmap_2.
  - intros Hin. apply (Hkept (today + 2)%Z H2). rewrite Hmade.
    by apply list_elem_of_fmap_2.
Qed.

(** The day after the first call on 2025-12-01: only 2025-12-05 is new. *)
Lemma daily_call_adds_one_day_witness :
  ∃ days,
    days `sublist_of` [739587 + 3]%Z ∧
    catalog_after
      (init_db_partitions 739587
         (catalog_after (init_db_partitions 739586 bare_catalog))) =
    catalog_after (init_db_partitions 739586 bare_catalog) ++
    (day_partition <$> days) ∧
    created
      (init_db_partitions 739587
         (catalog_after (init_db_partitions 739586 bare_catalog))) =
    part_name <$> days.
Proof.
  apply (daily_call_adds_one_day 739587
           (catalog_after (init_db_partitions 739586 bare_catalog))).
  - vm_compute. do 2 apply list_elem_of_further. apply list_elem_of_here.
  - vm_compute. do 3 apply list_elem_of_further. apply list_elem_of_here.
  - vm_compute. do 4 apply list_elem_of_further. apply list_elem_of_here.
Defined.

Example daily_call_sample :
  created
    (init_db_partitions 739587
       (catalog_after (init_db_partitions 739586 bare_catalog))) =
  ["raw_pool_y2025m12d05"].
Proof. by vm_compute. Qed.

(** The one row Anto's order adds to an empty ledger is a sale to Anto
    at a reading of the clock. *)
Lemma order_only_appends_witness :
  sold_to (SaleRow "081200000001" "Anto" noon) = "Anto" ∧
  ∃ k, sold_at (SaleRow "081200000001" "Anto" noon) = at_noon k.
Proof.
  pose proof (order_only_appends (H:=storage_order) at_noon reliable one_tsel
                "Anto" [Req "tsel" 1] noon) as (_ & _ & Hrows & _).
  apply Hrows. vm_compute. apply list_elem_of_here.
Defined.
